(** * download_data.py: a shallow embedding and its specification

    The script fetches two GeoJSON documents and stores them, re-serialised
    with [json.dumps(..., indent=2)], under [data/].  The development
    follows the script line by line:

    - Python [str] values are lists of Unicode code points ([Z]);
    - [json.loads] / [json.dumps] are the pure-Python codec of the standard
      library ([json/scanner.py], [json/decoder.py], [json/encoder.py]),
      which is what line 8 of the script calls;
    - [requests.get] and [Path.write_text] are effects on a [World] that
      holds the remote host, the file system and the trace of I/O events;
    - exceptions are results of an error monad, the [for] loop stops at
      the first one.

    What the model leaves out:

    - Python floats are kept abstract: the class [PyFloat] gives the three
      operations the codec needs ([float(text)], the named constants, and
      the encoder's [floatstr]), and [PyFloatLaws] states the two facts
      about them that the proofs rely on ([repr] of a finite float reads
      back as the same float; the constants print under their names);
    - the limits of the interpreter: integers and the nesting of documents
      are unbounded (no limit on the digits of an integer, no
      [RecursionError]); the fuel of the scanner is shown to be enough
      for every text ([scan_once_enough], [decode_complete]);
    - the file system is a set of directories and a map from paths to
      bytes; opening a file for writing fails when the parent directory
      is missing or the path is a directory, and text is written without
      newline translation (POSIX). *)

From Stdlib Require Import ZArith List String Ascii Lia Bool DecimalZ DecimalFacts Wf_nat.
From stdpp Require Import gmap strings list.

Open Scope Z_scope.
Set Warnings "-register-all".

(** ** Python strings *)

Abbreviation pystr := (list Z).

Definition ord (a : ascii) : Z := Z.of_nat (nat_of_ascii a).

Fixpoint lit (s : string) : pystr :=
  match s with
  | EmptyString => []
  | String a r => ord a :: lit r
  end.

Fixpoint startswith (p s : pystr) : bool :=
  match p, s with
  | [], _ => true
  | a :: p', b :: s' => (a =? b) && startswith p' s'
  | _ :: _, [] => false
  end.

Definition is_digit (c : Z) : bool := (48 <=? c) && (c <=? 57).

Definition is_ws (c : Z) : bool :=
  (c =? 32) || (c =? 9) || (c =? 10) || (c =? 13).

Definition is_high_surrogate (c : Z) : bool := (0xd800 <=? c) && (c <=? 0xdbff).
Definition is_low_surrogate (c : Z) : bool := (0xdc00 <=? c) && (c <=? 0xdfff).
Definition is_surrogate (c : Z) : bool := (0xd800 <=? c) && (c <=? 0xdfff).

(** ** Integers: [str(int)] and [int(text)] *)

Fixpoint uint_chars (u : Decimal.uint) : pystr :=
  match u with
  | Decimal.Nil => []
  | Decimal.D0 r => 48 :: uint_chars r
  | Decimal.D1 r => 49 :: uint_chars r
  | Decimal.D2 r => 50 :: uint_chars r
  | Decimal.D3 r => 51 :: uint_chars r
  | Decimal.D4 r => 52 :: uint_chars r
  | Decimal.D5 r => 53 :: uint_chars r
  | Decimal.D6 r => 54 :: uint_chars r
  | Decimal.D7 r => 55 :: uint_chars r
  | Decimal.D8 r => 56 :: uint_chars r
  | Decimal.D9 r => 57 :: uint_chars r
  end.

Definition int_chars (d : Decimal.int) : pystr :=
  match d with
  | Decimal.Pos u => uint_chars u
  | Decimal.Neg u => 45 :: uint_chars u
  end.

(** [int.__repr__] *)
Definition intstr (z : Z) : pystr := int_chars (Z.to_int z).

Fixpoint chars_uint (s : pystr) : Decimal.uint :=
  match s with
  | [] => Decimal.Nil
  | c :: r =>
    let u := chars_uint r in
    if c =? 48 then Decimal.D0 u else if c =? 49 then Decimal.D1 u
    else if c =? 50 then Decimal.D2 u else if c =? 51 then Decimal.D3 u
    else if c =? 52 then Decimal.D4 u else if c =? 53 then Decimal.D5 u
    else if c =? 54 then Decimal.D6 u else if c =? 55 then Decimal.D7 u
    else if c =? 56 then Decimal.D8 u else Decimal.D9 u
  end.

(** [int(text)] on a text matched by the integer part of [NUMBER_RE]. *)
Definition parse_int (s : pystr) : Z :=
  match s with
  | c :: r => if c =? 45 then Z.of_int (Decimal.Neg (chars_uint r))
              else Z.of_int (Decimal.Pos (chars_uint s))
  | [] => 0
  end.

(** ** [json.encoder]: string escaping with [ensure_ascii=True] *)

Definition hex_digit (d : Z) : Z := if d <? 10 then 48 + d else 87 + d.

(** ['{0:04x}'.format(n)], used for [n < 0x10000] only. *)
Definition format_04x (n : Z) : pystr :=
  [hex_digit (n / 4096 mod 16); hex_digit (n / 256 mod 16);
   hex_digit (n / 16 mod 16); hex_digit (n mod 16)].

Definition backslash_u (n : Z) : pystr := 92 :: 117 :: format_04x n.

(** The [replace] callback of [py_encode_basestring_ascii], applied to one
    character matched by [ESCAPE_ASCII]. *)
Definition escape_replace (n : Z) : pystr :=
  if n =? 92 then [92; 92]
  else if n =? 34 then [92; 34]
  else if n =? 8 then [92; 98]
  else if n =? 12 then [92; 102]
  else if n =? 10 then [92; 110]
  else if n =? 13 then [92; 114]
  else if n =? 9 then [92; 116]
  else if n <? 0x10000 then backslash_u n
  else
    let m := n - 0x10000 in
    let s1 := Z.lor 0xd800 (Z.land (Z.shiftr m 10) 0x3ff) in
    let s2 := Z.lor 0xdc00 (Z.land m 0x3ff) in
    backslash_u s1 ++ backslash_u s2.

(** [ESCAPE_ASCII]: a backslash, a double quote, or any character outside
    the printable ASCII range (space to tilde). *)
Definition escape_ascii_matches (c : Z) : bool :=
  (c =? 92) || (c =? 34) || negb ((32 <=? c) && (c <=? 126)).

Definition encode_char (c : Z) : pystr :=
  if escape_ascii_matches c then escape_replace c else [c].

Fixpoint escape_sub (s : pystr) : pystr :=
  match s with
  | [] => []
  | c :: r => encode_char c ++ escape_sub r
  end.

Definition py_encode_basestring_ascii (s : pystr) : pystr :=
  34 :: escape_sub s ++ [34].

(** ** [json.decoder]: string scanning *)

Definition hex_value (c : Z) : option Z :=
  if (48 <=? c) && (c <=? 57) then Some (c - 48)
  else if (97 <=? c) && (c <=? 102) then Some (c - 87)
  else if (65 <=? c) && (c <=? 70) then Some (c - 55)
  else None.

(** [int(esc, 16)] for the four characters matched by [HEXDIGITS]. *)
Definition int16 (h1 h2 h3 h4 : Z) : option Z :=
  match hex_value h1, hex_value h2, hex_value h3, hex_value h4 with
  | Some a, Some b, Some c, Some d => Some (((a * 16 + b) * 16 + c) * 16 + d)
  | _, _, _, _ => None
  end.

(** The [BACKSLASH] table. *)
Definition BACKSLASH (esc : Z) : option Z :=
  if esc =? 34 then Some 34
  else if esc =? 92 then Some 92
  else if esc =? 47 then Some 47
  else if esc =? 98 then Some 8
  else if esc =? 102 then Some 12
  else if esc =? 110 then Some 10
  else if esc =? 114 then Some 13
  else if esc =? 116 then Some 9
  else None.

Definition join_surrogates (uni uni2 : Z) : Z :=
  0x10000 + Z.lor (Z.shiftl (uni - 0xd800) 10) (uni2 - 0xdc00).

Definition push_char (c : Z) (r : option (pystr * pystr)) : option (pystr * pystr) :=
  match r with
  | Some (chunks, rest) => Some (c :: chunks, rest)
  | None => None
  end.

(** [py_scanstring(s, end)] in strict mode; the argument is the text after
    the opening quote, the result the decoded string and the text after
    the closing quote.  [None] stands for a raised [JSONDecodeError]. *)
Fixpoint py_scanstring (s : pystr) : option (pystr * pystr) :=
  match s with
  | [] => None
  | c :: r =>
    if c =? 34 then Some ([], r)
    else if c =? 92 then
      match r with
      | [] => None
      | esc :: r1 =>
        if esc =? 117 then
          match r1 with
          | h1 :: h2 :: h3 :: h4 :: r2 =>
            match int16 h1 h2 h3 h4 with
            | None => None
            | Some uni =>
              if is_high_surrogate uni && startswith [92; 117] r2 then
                match r2 with
                | _ :: _ :: k1 :: k2 :: k3 :: k4 :: r3 =>
                  match int16 k1 k2 k3 k4 with
                  | None => None
                  | Some uni2 =>
                    if is_low_surrogate uni2
                    then push_char (join_surrogates uni uni2) (py_scanstring r3)
                    else push_char uni (py_scanstring r2)
                  end
                | _ => None
                end
              else push_char uni (py_scanstring r2)
            end
          | _ => None
          end
        else
          match BACKSLASH esc with
          | Some char => push_char char (py_scanstring r1)
          | None => None
          end
      end
    else if c <? 32 then None
    else push_char c (py_scanstring r)
  end.

(** ** [json.scanner]: numbers *)

Fixpoint span_digits (s : pystr) : pystr * pystr :=
  match s with
  | c :: r =>
    if is_digit c then let '(d, r') := span_digits r in (c :: d, r')
    else ([], s)
  | [] => ([], [])
  end.

(** A single zero, or a non-zero digit followed by digits. *)
Definition match_digits1 (s : pystr) : option (pystr * pystr) :=
  match s with
  | c :: r =>
    if c =? 48 then Some ([48], r)
    else if is_digit c then let '(d, r') := span_digits r in Some (c :: d, r')
    else None
  | [] => None
  end.

(** First group of [NUMBER_RE]: an optional minus sign and the digits. *)
Definition match_integer (s : pystr) : option (pystr * pystr) :=
  match s with
  | c :: r =>
    if c =? 45 then
      match match_digits1 r with
      | Some (d, r') => Some (45 :: d, r')
      | None => None
      end
    else match_digits1 s
  | [] => None
  end.

(** Second group of [NUMBER_RE]: a dot and at least one digit, optional. *)
Definition match_frac (s : pystr) : pystr * pystr :=
  match s with
  | c :: r =>
    if c =? 46 then
      match span_digits r with
      | ([], _) => ([], s)
      | (d, r') => (46 :: d, r')
      end
    else ([], s)
  | [] => ([], [])
  end.

(** Third group of [NUMBER_RE]: e or E, an optional sign and at least one
    digit; optional. *)
Definition match_exp (s : pystr) : pystr * pystr :=
  match s with
  | c :: r =>
    if (c =? 101) || (c =? 69) then
      match r with
      | sg :: r1 =>
        if (sg =? 45) || (sg =? 43) then
          match span_digits r1 with
          | ([], _) => ([], s)
          | (d, r') => (c :: sg :: d, r')
          end
        else
          match span_digits r with
          | ([], _) => ([], s)
          | (d, r') => (c :: d, r')
          end
      | [] => ([], s)
      end
    else ([], s)
  | [] => ([], [])
  end.

(** [NUMBER_RE.match]: the groups [(integer, frac, exp)] and the text after
    the match. *)
Definition match_number (s : pystr) : option (pystr * pystr * pystr * pystr) :=
  match match_integer s with
  | None => None
  | Some (integer, r1) =>
    let '(frac, r2) := match_frac r1 in
    let '(exp, r3) := match_exp r2 in
    Some (integer, frac, exp, r3)
  end.

Definition nonempty (s : pystr) : bool :=
  match s with [] => false | _ :: _ => true end.

(** The texts [parse_float] is called on: a whole match of [NUMBER_RE] with
    a fraction or an exponent. *)
Definition is_float_literal (t : pystr) : bool :=
  match match_number t with
  | Some (_, frac, exp, []) => nonempty frac || nonempty exp
  | _ => false
  end.

(** ** Python floats *)

Inductive constant := NaN | PosInf | NegInf.

Definition constant_name (c : constant) : pystr :=
  match c with
  | NaN => lit "NaN"
  | PosInf => lit "Infinity"
  | NegInf => lit "-Infinity"
  end.

(** What the codec needs of the float type: [float(text)] on a literal,
    the table [_CONSTANTS] of the decoder, and [floatstr] of the encoder
    (with [allow_nan=True]). *)
Class PyFloat := {
  pyfloat : Type;
  float_of_literal : pystr -> pyfloat;
  float_constant : constant -> pyfloat;
  floatstr : pyfloat -> pystr
}.

(** A float the decoder can build. *)
Inductive decoded_float `{PyFloat} : pyfloat -> Prop :=
  | decoded_constant c : decoded_float (float_constant c)
  | decoded_literal t : is_float_literal t = true -> decoded_float (float_of_literal t).

(** [repr] of a finite float is again a float literal and reads back as
    the same float; an overflowing literal is an infinity, and the
    constants print under their names. *)
Class PyFloatLaws (F : PyFloat) : Prop := {
  floatstr_constant : forall c, floatstr (float_constant c) = constant_name c;
  floatstr_literal : forall t, is_float_literal t = true ->
    (is_float_literal (floatstr (float_of_literal t)) = true /\
     float_of_literal (floatstr (float_of_literal t)) = float_of_literal t)
    \/ (exists c, floatstr (float_of_literal t) = constant_name c /\
                  float_constant c = float_of_literal t)
}.

(** The free model: a float is the text it was read from. *)
Definition LiteralFloat : PyFloat :=
  {| pyfloat := pystr;
     float_of_literal := fun t => t;
     float_constant := constant_name;
     floatstr := fun f => f |}.

(** ** JSON documents as Python objects *)

Section Codec.
Context {F : PyFloat}.

(** What [json.loads] builds: [None], [bool], [int], [float], [str], [list]
    and [dict] (keys are strings, kept in insertion order). *)
Inductive value :=
  | VNone
  | VBool (b : bool)
  | VInt (z : Z)
  | VFloat (f : pyfloat)
  | VStr (s : pystr)
  | VList (l : list value)
  | VDict (d : list (pystr * value)).

(** [d[k] = v]: an existing key keeps its place and takes the new value. *)
Fixpoint dict_setitem (k : pystr) (v : value) (d : list (pystr * value))
  : list (pystr * value) :=
  match d with
  | [] => [(k, v)]
  | (k', v') :: d' =>
    if bool_decide (k = k') then (k', v) :: d'
    else (k', v') :: dict_setitem k v d'
  end.

(** [dict(pairs)] *)
Definition dict_of_pairs (pairs : list (pystr * value)) : list (pystr * value) :=
  fold_left (fun d kv => dict_setitem (fst kv) (snd kv) d) pairs [].

(** *** [json.encoder._make_iterencode] with [indent] given *)

Section Encoder.
Variable indent : nat.

(** ['\n' + _indent * _current_indent_level] *)
Definition newline_indent (level : nat) : pystr :=
  10 :: repeat 32 (indent * level)%nat.

(** The chunks of the items of a non-empty container: the first one as it
    is, each later one after the separator. *)
Definition separated (sep : pystr) (chunks : list pystr) : pystr :=
  match chunks with
  | [] => []
  | c :: cs => c ++ concat (map (fun x => sep ++ x) cs)
  end.

Fixpoint _iterencode (o : value) (level : nat) : pystr :=
  match o with
  | VStr s => py_encode_basestring_ascii s
  | VNone => lit "null"
  | VBool true => lit "true"
  | VBool false => lit "false"
  | VInt z => intstr z
  | VFloat f => floatstr f
  | VList [] => lit "[]"
  | VList lst =>
    [91] ++ newline_indent (S level)
    ++ separated (44 :: newline_indent (S level))
         (map (fun x => _iterencode x (S level)) lst)
    ++ newline_indent level ++ [93]
  | VDict [] => lit "{}"
  | VDict dct =>
    [123] ++ newline_indent (S level)
    ++ separated (44 :: newline_indent (S level))
         (map (fun kv => py_encode_basestring_ascii (fst kv) ++ [58; 32]
                         ++ _iterencode (snd kv) (S level)) dct)
    ++ newline_indent level ++ [125]
  end.

End Encoder.

(** [json.dumps(obj, indent=indent)] *)
Definition json_dumps (obj : value) (indent : nat) : pystr :=
  _iterencode indent obj 0.

(** *** [json.decoder] and [json.scanner] *)

(** [WHITESPACE.match(s, end).end()] *)
Fixpoint skip_ws (s : pystr) : pystr :=
  match s with
  | c :: r => if is_ws c then skip_ws r else s
  | [] => []
  end.

Section Parsers.
(** [JSONObject] and [JSONArray] receive the scanner as an argument. *)
Variable scan_once : pystr -> option (value * pystr).

(** The loop of [JSONArray]; the counter bounds the number of items by the
    length of the text. *)
Fixpoint array_items (n : nat) (s : pystr) (values : list value)
  : option (value * pystr) :=
  match n with
  | O => None
  | S n' =>
    match scan_once s with
    | None => None
    | Some (v, r) =>
      match skip_ws r with
      | c :: r' =>
        if c =? 93 then Some (VList (values ++ [v]), r')
        else if c =? 44 then array_items n' (skip_ws r') (values ++ [v])
        else None
      | [] => None
      end
    end
  end.

Definition JSONArray (s : pystr) : option (value * pystr) :=
  let s1 := skip_ws s in
  if startswith [93] s1 then Some (VList [], drop 1 s1)
  else array_items (length s1) s1 [].

(** The loop of [JSONObject], entered after the opening quote of a key. *)
Fixpoint object_pairs (n : nat) (s : pystr) (pairs : list (pystr * value))
  : option (value * pystr) :=
  match n with
  | O => None
  | S n' =>
    match py_scanstring s with
    | None => None
    | Some (key, r) =>
      match skip_ws r with
      | c :: r1 =>
        if c =? 58 then
          match scan_once (skip_ws r1) with
          | None => None
          | Some (v, r2) =>
            match skip_ws r2 with
            | c2 :: r3 =>
              if c2 =? 125
              then Some (VDict (dict_of_pairs (pairs ++ [(key, v)])), r3)
              else if c2 =? 44 then
                match skip_ws r3 with
                | c3 :: r4 =>
                  if c3 =? 34 then object_pairs n' r4 (pairs ++ [(key, v)])
                  else None
                | [] => None
                end
              else None
            | [] => None
            end
          end
        else None
      | [] => None
      end
    end
  end.

Definition JSONObject (s : pystr) : option (value * pystr) :=
  match skip_ws s with
  | c :: r =>
    if c =? 125 then Some (VDict [], r)
    else if c =? 34 then object_pairs (length r) r []
    else None
  | [] => None
  end.

End Parsers.

(** [_scan_once(string, idx)] of [py_make_scanner]; [fuel] bounds the
    nesting depth, [None] is a raised [StopIteration] or [JSONDecodeError]
    (the caller turns the former into the latter). *)
Fixpoint scan_once (fuel : nat) (s : pystr) : option (value * pystr) :=
  match fuel with
  | O => None
  | S fuel' =>
    match s with
    | [] => None
    | nextchar :: r =>
      if nextchar =? 34 then
        match py_scanstring r with
        | Some (str, rest) => Some (VStr str, rest)
        | None => None
        end
      else if nextchar =? 123 then JSONObject (scan_once fuel') r
      else if nextchar =? 91 then JSONArray (scan_once fuel') r
      else if startswith (lit "null") s then Some (VNone, drop 4 s)
      else if startswith (lit "true") s then Some (VBool true, drop 4 s)
      else if startswith (lit "false") s then Some (VBool false, drop 5 s)
      else
        match match_number s with
        | Some (integer, frac, exp, rest) =>
          if nonempty frac || nonempty exp
          then Some (VFloat (float_of_literal (integer ++ frac ++ exp)), rest)
          else Some (VInt (parse_int integer), rest)
        | None =>
          if startswith (lit "NaN") s
          then Some (VFloat (float_constant NaN), drop 3 s)
          else if startswith (lit "Infinity") s
          then Some (VFloat (float_constant PosInf), drop 8 s)
          else if startswith (lit "-Infinity") s
          then Some (VFloat (float_constant NegInf), drop 9 s)
          else None
        end
    end
  end.

(** [JSONDecoder.decode]: leading whitespace, one value, trailing
    whitespace, and nothing else. *)
Definition decode (s : pystr) : option value :=
  match scan_once (S (length s)) (skip_ws s) with
  | Some (obj, rest) =>
    match skip_ws rest with
    | [] => Some obj
    | _ :: _ => None
    end
  | None => None
  end.

(** [json.loads(s)] for a [str] argument; [None] is [JSONDecodeError]. *)
Definition json_loads (s : pystr) : option value :=
  if startswith [0xfeff] s then None else decode s.

End Codec.

Arguments value : clear implicits.
Arguments value {F}.

(** ** The [utf-8] codec *)

Definition utf8_encode_char (c : Z) : option (list Z) :=
  if c <? 0x80 then Some [c]
  else if c <? 0x800 then
    Some [Z.lor 0xc0 (Z.shiftr c 6); Z.lor 0x80 (Z.land c 0x3f)]
  else if c <? 0x10000 then
    if is_surrogate c then None
    else Some [Z.lor 0xe0 (Z.shiftr c 12);
               Z.lor 0x80 (Z.land (Z.shiftr c 6) 0x3f);
               Z.lor 0x80 (Z.land c 0x3f)]
  else
    Some [Z.lor 0xf0 (Z.shiftr c 18);
          Z.lor 0x80 (Z.land (Z.shiftr c 12) 0x3f);
          Z.lor 0x80 (Z.land (Z.shiftr c 6) 0x3f);
          Z.lor 0x80 (Z.land c 0x3f)].

(** [data.encode('utf-8')]; [None] is [UnicodeEncodeError] (a surrogate). *)
Fixpoint utf8_encode (s : pystr) : option (list Z) :=
  match s with
  | [] => Some []
  | c :: r =>
    match utf8_encode_char c, utf8_encode r with
    | Some bs, Some rest => Some (bs ++ rest)
    | _, _ => None
    end
  end.

Definition is_continuation (b : Z) : bool := (0x80 <=? b) && (b <=? 0xbf).

Definition push_code (c : Z) (r : option pystr) : option pystr :=
  match r with
  | Some s => Some (c :: s)
  | None => None
  end.

(** [bytes.decode('utf-8')], strict. *)
Fixpoint utf8_decode (bs : list Z) : option pystr :=
  match bs with
  | [] => Some []
  | b0 :: r0 =>
    if (0 <=? b0) && (b0 <? 0x80) then push_code b0 (utf8_decode r0)
    else if (0xc2 <=? b0) && (b0 <=? 0xdf) then
      match r0 with
      | b1 :: r1 =>
        if is_continuation b1
        then push_code (Z.lor (Z.shiftl (Z.land b0 0x1f) 6) (Z.land b1 0x3f))
                       (utf8_decode r1)
        else None
      | _ => None
      end
    else if (0xe0 <=? b0) && (b0 <=? 0xef) then
      match r0 with
      | b1 :: b2 :: r2 =>
        let c := Z.lor (Z.shiftl (Z.land b0 0x0f) 12)
                   (Z.lor (Z.shiftl (Z.land b1 0x3f) 6) (Z.land b2 0x3f)) in
        if is_continuation b1 && is_continuation b2
           && (0x800 <=? c) && negb (is_surrogate c)
        then push_code c (utf8_decode r2)
        else None
      | _ => None
      end
    else if (0xf0 <=? b0) && (b0 <=? 0xf4) then
      match r0 with
      | b1 :: b2 :: b3 :: r3 =>
        let c := Z.lor (Z.shiftl (Z.land b0 0x07) 18)
                   (Z.lor (Z.shiftl (Z.land b1 0x3f) 12)
                      (Z.lor (Z.shiftl (Z.land b2 0x3f) 6) (Z.land b3 0x3f))) in
        if is_continuation b1 && is_continuation b2 && is_continuation b3
           && (0x10000 <=? c) && (c <=? 0x10ffff)
        then push_code c (utf8_decode r3)
        else None
      | _ => None
      end
    else None
  end.

(** ** The world the script runs in *)

Inductive exn :=
  | RequestException
  | JSONDecodeError
  | FileNotFoundError
  | IsADirectoryError
  | UnicodeEncodeError.

Inductive result (A : Type) :=
  | Returned (a : A)
  | Raised (e : exn).

Arguments Returned {A} a.
Arguments Raised {A} e.

(** What the script reads of a [requests.Response]; [status_code] is there
    although the script never looks at it. *)
Record Response := { status_code : Z; text : pystr }.

Inductive event :=
  | Get (url : string)
  | Open (path : string)
  | Write (path : string) (data : list Z).

(** The process and its surroundings: how it was invoked, what the remote
    host answers to a GET of a URL (a response, or an exception of
    [requests]), the directories and files below the working directory,
    and the trace of the I/O performed so far. *)
Record World := {
  argv : list string;
  environ : gmap string string;
  remote : string -> result Response;
  directories : gset string;
  files : gmap string (list Z);
  trace : list event
}.

Definition log (e : event) (w : World) : World :=
  {| argv := argv w; environ := environ w; remote := remote w;
     directories := directories w; files := files w;
     trace := trace w ++ [e] |}.

Definition store (path : string) (data : list Z) (w : World) : World :=
  {| argv := argv w; environ := environ w; remote := remote w;
     directories := directories w; files := <[path := data]> (files w);
     trace := trace w |}.

(** Computations that perform I/O and may raise. *)
Definition M (A : Type) : Type := World -> result A * World.

#[global] Instance M_ret : MRet M := fun A a w => (Returned a, w).

#[global] Instance M_bind : MBind M := fun A B f m w =>
  match m w with
  | (Returned a, w') => f a w'
  | (Raised e, w') => (Raised e, w')
  end.

Definition raise {A : Type} (e : exn) : M A := fun w => (Raised e, w).

(** [requests.get(url)]: one GET; a response of any status is returned,
    a failure of the transport is raised. *)
Definition requests_get (url : string) : M Response :=
  fun w => (remote w url, log (Get url) w).

(** The part of a path before its last slash, if it has one. *)
Fixpoint dirname (path : string) : option string :=
  match path with
  | EmptyString => None
  | String a r =>
    match dirname r with
    | Some d => Some (String a d)
    | None => if Ascii.eqb a "/" then Some EmptyString else None
    end
  end.

Definition parent_exists (path : string) (w : World) : bool :=
  match dirname path with
  | Some d => bool_decide (d ∈ directories w)
  | None => true
  end.

(** [Path(path).write_text(data, 'utf-8')]: the file is opened with mode
    [w] (created or truncated), then the encoded text is written. *)
Definition write_text (path : string) (data : pystr) : M unit :=
  fun w =>
    let w1 := log (Open path) w in
    if negb (parent_exists path w) then (Raised FileNotFoundError, w1)
    else if bool_decide (path ∈ directories w) then (Raised IsADirectoryError, w1)
    else
      match utf8_encode data with
      | Some bytes => (Returned tt, log (Write path bytes) (store path bytes w1))
      | None => (Raised UnicodeEncodeError, store path [] w1)
      end.

(** [Path(path).read_text('utf-8')], for the observer of the output. *)
Definition read_text (path : string) (w : World) : option pystr :=
  match files w !! path with
  | Some bytes => utf8_decode bytes
  | None => None
  end.

(** ** The script *)

Section Script.
Context {F : PyFloat}.

Definition loads (s : pystr) : M value :=
  match json_loads s with
  | Some obj => mret obj
  | None => raise JSONDecodeError
  end.

Definition filenames : list string :=
  ["ne_10m_admin_0_countries_lakes"; "ne_10m_admin_1_states_provinces"]%string.

(** The two items of [filenames], by name. *)
Definition countries_lakes : string := "ne_10m_admin_0_countries_lakes".
Definition states_provinces : string := "ne_10m_admin_1_states_provinces".

Definition url_of (filename : string) : string :=
  ("https://raw.githubusercontent.com/nvkelso/natural-earth-vector/master/geojson/"
     +:+ filename +:+ ".geojson")%string.

Definition path_of (filename : string) : string :=
  ("data/" +:+ filename +:+ ".json")%string.

(** The body of the loop: the arguments of [write_text] are evaluated
    before the call. *)
Definition loop_body (filename : string) : M unit :=
  data ← requests_get (url_of filename);
  obj ← loads (text data);
  write_text (path_of filename) (json_dumps obj 2).

Fixpoint for_in {A : Type} (xs : list A) (body : A -> M unit) : M unit :=
  match xs with
  | [] => mret tt
  | x :: xs' => body x ≫= fun _ => for_in xs' body
  end.

(** The module body. *)
Definition download_data : M unit := for_in filenames loop_body.

End Script.

(** ** Notions of the specification *)

(** *** Texts *)

Definition code_point (c : Z) : Prop := 0 <= c <= 0x10ffff.

(** Unicode text: code points that are not surrogates, which is what
    decoding the bytes of a response yields. *)
Definition scalar (c : Z) : Prop := 0 <= c <= 0x10ffff /\ is_surrogate c = false.

Definition is_ascii (c : Z) : Prop := 0 <= c < 128.

(** No high surrogate is directly followed by a low one. *)
Fixpoint no_pair (s : pystr) : bool :=
  match s with
  | c :: r =>
    match r with
    | d :: _ => negb (is_high_surrogate c && is_low_surrogate d)
    | [] => true
    end && no_pair r
  | [] => true
  end.

Definition wf_str (s : pystr) : Prop := Forall code_point s /\ no_pair s = true.

Definition starts (P : Z -> Prop) (t : pystr) : Prop :=
  match t with
  | c :: _ => P c
  | [] => False
  end.

(** What may follow a value in the encoder's output: nothing, a comma or a
    newline. *)
Definition value_end (rest : pystr) : Prop :=
  match rest with
  | [] => True
  | c :: _ => c = 44 \/ c = 10
  end.

(** The first character of an encoded value is neither whitespace nor a
    delimiter. *)
Definition value_start (c : Z) : Prop :=
  is_ws c || (c =? 93) || (c =? 125) || (c =? 44) || (c =? 58) = false.

(** A number starts with a digit or a minus sign. *)
Definition number_start (c : Z) : Prop := is_digit c = true \/ c = 45.

Definition no_digit (r : pystr) : Prop :=
  match r with
  | c :: _ => is_digit c = false
  | [] => True
  end.

Definition frac_like (f : pystr) : Prop :=
  match f with
  | c :: _ => c = 46
  | [] => True
  end.

Definition exp_like (e : pystr) : Prop :=
  match e with
  | c :: _ => c = 101 \/ c = 69
  | [] => True
  end.

(** The decimal writing of an integer has no leading zeros. *)
Inductive no_leading_zero : Decimal.int -> Prop :=
  | nlz_zero : no_leading_zero (Decimal.Pos (Decimal.D0 Decimal.Nil))
  | nlz_pos u : u <> Decimal.Nil -> (forall u', u <> Decimal.D0 u') ->
      no_leading_zero (Decimal.Pos u)
  | nlz_neg u : u <> Decimal.Nil -> (forall u', u <> Decimal.D0 u') ->
      no_leading_zero (Decimal.Neg u).

(** *** Escapes *)

(** The seven characters that have a two-character escape. *)
Definition short_escape (c : Z) : option Z :=
  if c =? 92 then Some 92 else if c =? 34 then Some 34
  else if c =? 8 then Some 98 else if c =? 12 then Some 102
  else if c =? 10 then Some 110 else if c =? 13 then Some 114
  else if c =? 9 then Some 116 else None.

(** The four shapes of an encoded character. *)
Inductive encoded_char (c : Z) : pystr -> Prop :=
  | enc_plain : 32 <= c <= 126 -> c <> 92 -> c <> 34 -> encoded_char c [c]
  | enc_short e : short_escape c = Some e -> encoded_char c [92; e]
  | enc_bmp : short_escape c = None -> 0 <= c < 65536 -> ~ 32 <= c <= 126 ->
      encoded_char c (backslash_u c)
  | enc_astral : 0x10000 <= c <= 0x10ffff ->
      encoded_char c (backslash_u (0xd800 + (c - 0x10000) / 1024)
                      ++ backslash_u (0xdc00 + (c - 0x10000) mod 1024)).

(** After a lone high surrogate the scanner looks ahead for an escaped low
    surrogate; [no_low_escape t] says it will not find one. *)
Definition no_low_escape (t : pystr) : Prop :=
  startswith [92; 117] t = true ->
  exists k1 k2 k3 k4 r3 u2,
    t = 92 :: 117 :: k1 :: k2 :: k3 :: k4 :: r3 /\
    int16 k1 k2 k3 k4 = Some u2 /\ is_low_surrogate u2 = false.

(** One round of the loop of [py_scanstring]: from the text [s] it appends
    the character [c] and continues with the text [t]. *)
Inductive scan_step : pystr -> Z -> pystr -> Prop :=
  | step_plain c t : c <> 34 -> c <> 92 -> 32 <= c -> scan_step (c :: t) c t
  | step_short e c t : BACKSLASH e = Some c -> scan_step (92 :: e :: t) c t
  | step_lone h1 h2 h3 h4 uni t :
      int16 h1 h2 h3 h4 = Some uni ->
      (is_high_surrogate uni = true -> no_low_escape t) ->
      scan_step (92 :: 117 :: h1 :: h2 :: h3 :: h4 :: t) uni t
  | step_pair h1 h2 h3 h4 k1 k2 k3 k4 uni uni2 t :
      int16 h1 h2 h3 h4 = Some uni -> is_high_surrogate uni = true ->
      int16 k1 k2 k3 k4 = Some uni2 -> is_low_surrogate uni2 = true ->
      scan_step (92 :: 117 :: h1 :: h2 :: h3 :: h4 :: 92 :: 117 :: k1 :: k2 :: k3 :: k4 :: t)
                (join_surrogates uni uni2) t.

(** The chunks that follow the first item of a container, then [k]. *)
Fixpoint chunks_then (sep : pystr) (cs : list pystr) (k : pystr) : pystr :=
  match cs with
  | [] => k
  | c :: cs' => sep ++ c ++ chunks_then sep cs' k
  end.

(** *** Values *)

Section ValueNotions.
Context {F : PyFloat}.

(** The values the decoder builds: floats come from literals or constants,
    the keys of a dictionary are distinct, and every string (also a key)
    satisfies [P]. *)
Inductive well_formed (P : pystr -> Prop) : value -> Prop :=
  | wf_none : well_formed P VNone
  | wf_bool b : well_formed P (VBool b)
  | wf_int z : well_formed P (VInt z)
  | wf_float f : decoded_float f -> well_formed P (VFloat f)
  | wf_string s : P s -> well_formed P (VStr s)
  | wf_list l : Forall (well_formed P) l -> well_formed P (VList l)
  | wf_dict d : NoDup (map fst d) ->
      Forall (fun kv => P (fst kv) /\ well_formed P (snd kv)) d ->
      well_formed P (VDict d).

(** Nesting depth. *)
Fixpoint depth (v : value) : nat :=
  match v with
  | VList l => S (fold_right (fun x m => Nat.max (depth x) m) O l)
  | VDict d => S (fold_right (fun kv m => Nat.max (depth (snd kv)) m) O d)
  | _ => O
  end.

(** The chunk of one item of a dictionary. *)
Definition item_chunk (indent level : nat) (kv : pystr * value) : pystr :=
  py_encode_basestring_ascii (fst kv) ++ [58; 32]
  ++ _iterencode indent (snd kv) (S level).

(** [scan] reads back the encoding of [v] at nesting [level]. *)
Definition parses (indent : nat) (scan : pystr -> option (value * pystr))
  (level : nat) (v : value) : Prop :=
  forall r, value_end r -> scan (_iterencode indent v (S level) ++ r) = Some (v, r).

(** A scanner returns a rest of its input, and a well-formed value when
    the characters of the input satisfy [Q]. *)
Definition scan_ok (Q : Z -> Prop) (P : pystr -> Prop)
  (scan : pystr -> option (value * pystr)) : Prop :=
  forall s v r, scan s = Some (v, r) ->
    suffix r s /\ (Forall Q s -> well_formed P v).

Definition pair_ok (P : pystr -> Prop) (kv : pystr * value) : Prop :=
  P (fst kv) /\ well_formed P (snd kv).

(** *** Runs of the script *)

(** The I/O events of one run of the script started in [w]. *)
Definition performed (w : World) : list event :=
  drop (length (trace w)) (trace (snd (download_data w))).

(** The six ways one round of the loop can end. *)
Inductive ran (filename : string) (w : World) : result unit -> World -> Prop :=
  | ran_transport e :
      remote w (url_of filename) = Raised e ->
      ran filename w (Raised e) (log (Get (url_of filename)) w)
  | ran_not_json r :
      remote w (url_of filename) = Returned r ->
      json_loads (text r) = None ->
      ran filename w (Raised JSONDecodeError) (log (Get (url_of filename)) w)
  | ran_no_parent r obj :
      remote w (url_of filename) = Returned r ->
      json_loads (text r) = Some obj ->
      parent_exists (path_of filename) w = false ->
      ran filename w (Raised FileNotFoundError)
        (log (Open (path_of filename)) (log (Get (url_of filename)) w))
  | ran_directory r obj :
      remote w (url_of filename) = Returned r ->
      json_loads (text r) = Some obj ->
      parent_exists (path_of filename) w = true ->
      path_of filename ∈ directories w ->
      ran filename w (Raised IsADirectoryError)
        (log (Open (path_of filename)) (log (Get (url_of filename)) w))
  | ran_unencodable r obj :
      remote w (url_of filename) = Returned r ->
      json_loads (text r) = Some obj ->
      parent_exists (path_of filename) w = true ->
      path_of filename ∉ directories w ->
      utf8_encode (json_dumps obj 2) = None ->
      ran filename w (Raised UnicodeEncodeError)
        (store (path_of filename) []
           (log (Open (path_of filename)) (log (Get (url_of filename)) w)))
  | ran_written r obj bytes :
      remote w (url_of filename) = Returned r ->
      json_loads (text r) = Some obj ->
      parent_exists (path_of filename) w = true ->
      path_of filename ∉ directories w ->
      utf8_encode (json_dumps obj 2) = Some bytes ->
      ran filename w (Returned tt)
        (log (Write (path_of filename) bytes)
           (store (path_of filename) bytes
              (log (Open (path_of filename)) (log (Get (url_of filename)) w)))).

(** The three ways a run of the script can end: at the first item, at the
    second, or after both. *)
Inductive run_outcome (w : World) : result unit -> World -> Prop :=
  | stopped_first e w1 :
      ran countries_lakes w (Raised e) w1 ->
      run_outcome w (Raised e) w1
  | stopped_second w1 e w2 :
      ran countries_lakes w (Returned tt) w1 ->
      ran states_provinces w1 (Raised e) w2 ->
      run_outcome w (Raised e) w2
  | completed w1 w2 :
      ran countries_lakes w (Returned tt) w1 ->
      ran states_provinces w1 (Returned tt) w2 ->
      run_outcome w (Returned tt) w2.

End ValueNotions.


(** *** Sample worlds *)

Definition response (status : Z) (body : pystr) : result Response :=
  Returned {| status_code := status; text := body |}.

(** A host that answers the two URLs of the script with [r1] and [r2]. *)
Definition host (r1 r2 : result Response) (url : string) : result Response :=
  if bool_decide (url = String.append
       "https://raw.githubusercontent.com/nvkelso/natural-earth-vector/master/geojson/"
       "ne_10m_admin_0_countries_lakes.geojson") then r1
  else if bool_decide (url = String.append
       "https://raw.githubusercontent.com/nvkelso/natural-earth-vector/master/geojson/"
       "ne_10m_admin_1_states_provinces.geojson") then r2
  else Raised RequestException.

Definition world (h : string -> result Response) (dirs : gset string)
  (fs : gmap string (list Z)) : World :=
  {| argv := ["download_data.py"%string]; environ := ∅; remote := h;
     directories := dirs; files := fs; trace := [] |}.

(** A small feature collection, with a float, a negative integer, an
    escape and a character outside ASCII. *)
Definition sample_countries : pystr :=
  lit "{" ++ [34] ++ lit "type" ++ [34] ++ lit ": " ++ [34] ++ lit "Caf" ++ [233]
  ++ [92; 110] ++ [34] ++ lit ", " ++ [34] ++ lit "bbox" ++ [34]
  ++ lit ":[ -180.0, 1e2, 7, null ] }".

Definition sample_states : pystr := lit "[true, {}, [], -0]".

Definition sample_world : World :=
  world (host (response 200 sample_countries) (response 200 sample_states))
        {["data"%string]} ∅.

(** The text [json.dumps] gives for a body, with the literal floats. *)
Definition reserialized (body : pystr) : pystr :=
  match json_loads (F := LiteralFloat) body with
  | Some obj => json_dumps obj 2
  | None => []
  end.

(** The same bodies under other statuses, next to an older file and with
    another command line and environment. *)
Definition other_world : World :=
  {| argv := ["download_data.py"; "--force"]%string;
     environ := {["HTTPS_PROXY"%string := "http://localhost:3128"%string]};
     remote := host (response 203 sample_countries) (response 404 sample_states);
     directories := {["data"%string]};
     files := {["data/ne_10m_admin_0_countries_lakes.json"%string := lit "[]"]};
     trace := [] |}.


(** The second item is answered with the error page of the host. *)
Definition not_found_world : World :=
  world (host (response 200 sample_countries) (response 404 (lit "404: Not Found")))
        {["data"%string]} ∅.

(** The first item is answered with status 404 and a JSON body. *)
Definition json_404_world : World :=
  world (host (response 404 (lit "{}")) (response 200 sample_states))
        {["data"%string]} ∅.

(** No directory [data]. *)
Definition bare_world : World :=
  world (host (response 200 sample_countries) (response 200 sample_states)) ∅ ∅.

(** What a second invocation finds after a run in [sample_world]. *)
Definition second_world : World :=
  world (host (response 200 sample_countries) (response 200 sample_states))
        (directories (snd (download_data (F := LiteralFloat) sample_world)))
        (files (snd (download_data (F := LiteralFloat) sample_world))).

(** *** Comparing runs *)

(** Two answers of the remote with the same body text or the same error;
    the status codes are free. *)
Definition same_answer (a b : result Response) : Prop :=
  match a, b with
  | Returned r1, Returned r2 => text r1 = text r2
  | Raised e1, Raised e2 => e1 = e2
  | _, _ => False
  end.

(** Two worlds whose remotes answer alike, with the same directories and
    the same trace; files, arguments and environment are free. *)
Definition alike (w1 w2 : World) : Prop :=
  (forall url, same_answer (remote w1 url) (remote w2 url))
  /\ directories w1 = directories w2 /\ trace w1 = trace w2.

(** Text of white space only, the empty text included. *)
Definition blank (s : pystr) : Prop := Forall (fun c => is_ws c = true) s.

(** *** More sample worlds *)

(** The sample bodies under other statuses. *)
Definition restatused_world : World :=
  world (host (response 203 sample_countries) (response 500 sample_states))
        {["data"%string]} ∅.

(** The sample world next to a file of its own and an older output. *)
Definition cluttered_world : World :=
  world (host (response 200 sample_countries) (response 200 sample_states))
        {["data"%string]}
        {["data/notes.txt"%string := lit "keep";
          "data/ne_10m_admin_0_countries_lakes.json"%string := lit "[]"]}.

(** The first item is answered with a page of white space. *)
Definition blank_world : World :=
  world (host (response 200 [32; 10; 13; 9]) (response 200 sample_states))
        {["data"%string]} ∅.

(** The second output path is taken by a directory. *)
Definition directory_world : World :=
  world (host (response 200 sample_countries) (response 200 sample_states))
        {["data"%string; "data/ne_10m_admin_1_states_provinces.json"%string]} ∅.

(** A value with every kind of node. *)
Definition sample_value : @value LiteralFloat :=
  VDict [(lit "name", VStr [67; 97; 102; 233; 10; 0x1f600]);
         (lit "bbox", VList [VFloat (float_of_literal (lit "-180.0")); VInt (-7); VNone; VBool true]);
         (lit "", VDict [])].

(** *** Proof automation *)

(** Decide the comparisons of the goal that [lia] can settle. *)
Ltac zdec1 :=
  match goal with
  | |- context [Z.eqb ?a ?b] =>
    first [ replace (Z.eqb a b) with true by (symmetry; apply Z.eqb_eq; lia)
          | replace (Z.eqb a b) with false by (symmetry; apply Z.eqb_neq; lia) ]
  | |- context [Z.ltb ?a ?b] =>
    first [ replace (Z.ltb a b) with true by (symmetry; apply Z.ltb_lt; lia)
          | replace (Z.ltb a b) with false by (symmetry; apply Z.ltb_ge; lia) ]
  | |- context [Z.leb ?a ?b] =>
    first [ replace (Z.leb a b) with true by (symmetry; apply Z.leb_le; lia)
          | replace (Z.leb a b) with false by (symmetry; apply Z.leb_gt; lia) ]
  end.

Ltac zdec := repeat (zdec1; cbn [andb orb negb]).

Ltac compute_text :=
  match goal with
  | |- Forall ?P ?t => let t' := eval vm_compute in t in change (Forall P t')
  end.

Ltac ascii_list :=
  repeat lazymatch goal with
         | |- Forall _ [] => apply List.Forall_nil
         | |- Forall _ (_ :: _) => apply List.Forall_cons; [unfold is_ascii; lia|]
         end.

Ltac back :=
  try match goal with H : _ = Some (_, _) |- _ => revert H end.

(** * Proofs *)

(** ** The string codec *)

Lemma hex_value_digit d : 0 <= d < 16 -> hex_value (hex_digit d) = Some d.
Proof.
  intros Hd. unfold hex_value, hex_digit.
  destruct (Z.ltb_spec d 10); zdec; f_equal; lia.
Qed.

Lemma int16_format n :
  0 <= n < 65536 ->
  int16 (hex_digit (n / 4096 mod 16)) (hex_digit (n / 256 mod 16))
        (hex_digit (n / 16 mod 16)) (hex_digit (n mod 16)) = Some n.
Proof.
  intros Hn. unfold int16.
  rewrite !hex_value_digit by (apply Z.mod_pos_bound; lia).
  f_equal. 
  Z.div_mod_to_equations. lia.
Qed.

Lemma lor_shiftl_add a b k :
  0 <= k -> 0 <= b < 2 ^ k -> Z.lor (Z.shiftl a k) b = a * 2 ^ k + b.
Proof.
  intros Hk Hb.
  rewrite Z.shiftl_mul_pow2 by lia.
  rewrite <- Z.lxor_lor, <- Z.add_nocarry_lxor; auto.
  all: apply Z.bits_inj'; intros n Hn; rewrite Z.land_spec, Z.bits_0.
  all: destruct (Z.lt_ge_cases n k).
  all: try (rewrite Z.mul_pow2_bits_low by lia; reflexivity).
  all: destruct (Z.eq_dec b 0) as [->|]; [rewrite Z.bits_0; apply andb_false_r|].
  all: rewrite (Z.bits_above_log2 b n); [apply andb_false_r|lia|].
  all: apply Z.log2_lt_pow2; try lia.
  all: apply Z.lt_le_trans with (2 ^ k); try lia; apply Z.pow_le_mono_r; lia.
Qed.

Lemma high_surrogate_of m :
  0 <= m < 0x100000 ->
  Z.lor 0xd800 (Z.land (Z.shiftr m 10) 0x3ff) = 0xd800 + m / 1024.
Proof.
  intros Hm. rewrite Z.shiftr_div_pow2 by lia.
  change 0x3ff with (Z.ones 10). rewrite Z.land_ones by lia.
  change 0xd800 with (Z.shiftl 54 10).
  rewrite lor_shiftl_add; [| lia | apply Z.mod_pos_bound; lia].
  change (2 ^ 10) with 1024. rewrite Z.shiftl_mul_pow2 by lia.
  change (2 ^ 10) with 1024. rewrite Z.mod_small; [lia|].
  split; [apply Z.div_pos; lia | apply Z.div_lt_upper_bound; lia].
Qed.

Lemma low_surrogate_of m :
  0 <= m -> Z.lor 0xdc00 (Z.land m 0x3ff) = 0xdc00 + m mod 1024.
Proof.
  intros Hm. change 0x3ff with (Z.ones 10). rewrite Z.land_ones by lia.
  change 0xdc00 with (Z.shiftl 55 10).
  rewrite lor_shiftl_add; [| lia | apply Z.mod_pos_bound; lia].
  rewrite Z.shiftl_mul_pow2 by lia. reflexivity.
Qed.

Lemma join_surrogates_of m :
  0 <= m < 0x100000 ->
  join_surrogates (0xd800 + m / 1024) (0xdc00 + m mod 1024) = 0x10000 + m.
Proof.
  intros Hm. unfold join_surrogates.
  replace (0xd800 + m / 1024 - 0xd800) with (m / 1024) by lia.
  replace (0xdc00 + m mod 1024 - 0xdc00) with (m mod 1024) by lia.
  rewrite lor_shiftl_add; [| lia | apply Z.mod_pos_bound; lia].
  change (2 ^ 10) with 1024. pose proof (Z.div_mod m 1024). lia.
Qed.

Lemma scanstring_u h1 h2 h3 h4 t :
  py_scanstring (92 :: 117 :: h1 :: h2 :: h3 :: h4 :: t) =
  match int16 h1 h2 h3 h4 with
  | None => None
  | Some uni =>
    if is_high_surrogate uni && startswith [92; 117] t then
      match t with
      | _ :: _ :: k1 :: k2 :: k3 :: k4 :: r3 =>
        match int16 k1 k2 k3 k4 with
        | None => None
        | Some uni2 =>
          if is_low_surrogate uni2
          then push_char (join_surrogates uni uni2) (py_scanstring r3)
          else push_char uni (py_scanstring t)
        end
      | _ => None
      end
    else push_char uni (py_scanstring t)
  end.
Proof. reflexivity. Qed.

Lemma scanstring_backslash_u n t :
  0 <= n < 65536 ->
  py_scanstring (backslash_u n ++ t) =
  if is_high_surrogate n && startswith [92; 117] t then
    match t with
    | _ :: _ :: k1 :: k2 :: k3 :: k4 :: r3 =>
      match int16 k1 k2 k3 k4 with
      | None => None
      | Some uni2 =>
        if is_low_surrogate uni2
        then push_char (join_surrogates n uni2) (py_scanstring r3)
        else push_char n (py_scanstring t)
      end
    | _ => None
    end
  else push_char n (py_scanstring t).
Proof.
  intros Hn. unfold backslash_u, format_04x.
  cbn [app]. rewrite scanstring_u, int16_format by exact Hn. reflexivity.
Qed.

Lemma encode_char_cases c : code_point c -> encoded_char c (encode_char c).
Proof.
  unfold code_point. intros Hc. unfold encode_char, escape_ascii_matches.
  destruct (Z.eqb_spec c 92) as [->|H92]; [apply (enc_short 92 92); reflexivity|].
  destruct (Z.eqb_spec c 34) as [->|H34]; [apply (enc_short 34 34); reflexivity|].
  cbn [orb].
  destruct (Z.leb_spec 32 c); cbn [andb negb].
  - destruct (Z.leb_spec c 126); cbn [negb].
    + apply enc_plain; lia.
    + unfold escape_replace. zdec.
      destruct (Z.ltb_spec c 0x10000).
      * apply enc_bmp; [unfold short_escape; zdec; reflexivity | lia | lia].
      * cbv zeta. rewrite high_surrogate_of, low_surrogate_of by lia.
        apply enc_astral. lia.
  - unfold escape_replace. zdec.
    destruct (Z.eqb_spec c 8) as [->|]; [apply (enc_short 8 98); reflexivity|].
    destruct (Z.eqb_spec c 12) as [->|]; [apply (enc_short 12 102); reflexivity|].
    destruct (Z.eqb_spec c 10) as [->|]; [apply (enc_short 10 110); reflexivity|].
    destruct (Z.eqb_spec c 13) as [->|]; [apply (enc_short 13 114); reflexivity|].
    destruct (Z.eqb_spec c 9) as [->|]; [apply (enc_short 9 116); reflexivity|].
    zdec. apply enc_bmp; [unfold short_escape; zdec; reflexivity | lia | lia].
Qed.

Lemma short_escape_inv c e :
  short_escape c = Some e -> BACKSLASH e = Some c /\ e <> 117 /\ 32 <= e <= 126.
Proof.
  unfold short_escape.
  repeat (match goal with |- context [Z.eqb c ?k] => destruct (Z.eqb_spec c k) as [->|] end;
          [intros [= <-]; repeat split; lia|]).
  discriminate.
Qed.

Lemma scanstring_short e c t :
  BACKSLASH e = Some c -> e <> 117 ->
  py_scanstring (92 :: e :: t) = push_char c (py_scanstring t).
Proof.
  intros He Hu. cbn [py_scanstring]. zdec. rewrite He. reflexivity.
Qed.

Lemma scanstring_plain c t :
  32 <= c -> c <> 92 -> c <> 34 ->
  py_scanstring (c :: t) = push_char c (py_scanstring t).
Proof. intros. cbn [py_scanstring]. zdec. reflexivity. Qed.

Lemma scanstring_lone n t :
  0 <= n < 65536 -> no_low_escape t ->
  py_scanstring (backslash_u n ++ t) = push_char n (py_scanstring t).
Proof.
  intros Hn Ht. rewrite scanstring_backslash_u by exact Hn.
  destruct (is_high_surrogate n); cbn [andb]; [|reflexivity].
  destruct (startswith [92; 117] t) eqn:Hs; [|reflexivity].
  destruct (Ht Hs) as (k1 & k2 & k3 & k4 & r3 & u2 & -> & Hk & Hl).
  rewrite Hk, Hl. reflexivity.
Qed.

Lemma no_low_escape_backslash_u n t :
  0 <= n < 65536 -> is_low_surrogate n = false -> no_low_escape (backslash_u n ++ t).
Proof.
  intros Hn Hl _. unfold backslash_u, format_04x. cbn [app].
  do 6 eexists. split; [reflexivity|]. split; [apply int16_format, Hn | exact Hl].
Qed.

Lemma no_low_escape_encoded c x t :
  encoded_char c x -> is_low_surrogate c = false -> no_low_escape (x ++ t).
Proof.
  intros Hx Hl. destruct Hx as [? ? ?|e He|? ? ?|?].
  - intros Hs. cbn [app startswith] in Hs. apply andb_true_iff in Hs as [Hs _].
    apply Z.eqb_eq in Hs. lia.
  - intros Hs. apply short_escape_inv in He as (_ & He & _).
    cbn [app startswith] in Hs. apply andb_true_iff in Hs as [_ Hs].
    apply andb_true_iff in Hs as [Hs _]. apply Z.eqb_eq in Hs. lia.
  - apply no_low_escape_backslash_u; assumption.
  - rewrite <- app_assoc. apply no_low_escape_backslash_u.
    + assert (0 <= (c - 65536) / 1024 < 1024); [|lia].
      split; [apply Z.div_pos; lia | apply Z.div_lt_upper_bound; lia].
    + assert (0 <= (c - 65536) / 1024 < 1024).
      { split; [apply Z.div_pos; lia | apply Z.div_lt_upper_bound; lia]. }
      unfold is_low_surrogate. zdec. reflexivity.
Qed.

Lemma no_low_escape_quote t : no_low_escape (34 :: t).
Proof. intros Hs. discriminate Hs. Qed.

Lemma scanstring_encoded c x t :
  encoded_char c x -> (is_high_surrogate c = true -> no_low_escape t) ->
  py_scanstring (x ++ t) = push_char c (py_scanstring t).
Proof.
  intros Hx Ht. destruct Hx as [? ? ?|e He|? ? ?|?].
  - apply scanstring_plain; lia.
  - apply short_escape_inv in He as (He & Hu & _). apply scanstring_short; assumption.
  - destruct (is_high_surrogate c) eqn:Hh.
    + apply scanstring_lone; auto.
    + rewrite scanstring_backslash_u, Hh by assumption. reflexivity.
  - set (m := c - 65536).
    assert (Hm : 0 <= m < 0x100000) by (unfold m; lia).
    assert (0 <= m / 1024 < 1024).
    { split; [apply Z.div_pos; lia | apply Z.div_lt_upper_bound; lia]. }
    pose proof (Z.mod_pos_bound m 1024 ltac:(lia)).
    rewrite <- app_assoc, scanstring_backslash_u by lia.
    replace (is_high_surrogate (55296 + m / 1024)) with true
      by (unfold is_high_surrogate; zdec; reflexivity).
    unfold backslash_u at 1 2, format_04x. cbn [app startswith andb Z.eqb Pos.eqb].
    rewrite int16_format by lia.
    replace (is_low_surrogate (56320 + m mod 1024)) with true
      by (unfold is_low_surrogate; zdec; reflexivity).
    rewrite join_surrogates_of by exact Hm. f_equal. unfold m. lia.
Qed.

Lemma no_pair_cons c s :
  no_pair (c :: s) = true ->
  no_pair s = true /\
  (is_high_surrogate c = true ->
   match s with d :: _ => is_low_surrogate d = false | [] => True end).
Proof.
  cbn [no_pair]. intros H. apply andb_true_iff in H as [H1 H2]. split; [exact H2|].
  intros Hh. destruct s as [|d s']; [exact I|].
  rewrite Hh in H1. cbn in H1. destruct (is_low_surrogate d); [discriminate|reflexivity].
Qed.

(** The decoder reads back what the encoder wrote for a string. *)
Lemma scanstring_escape_sub s rest :
  Forall code_point s -> no_pair s = true ->
  py_scanstring (escape_sub s ++ 34 :: rest) = Some (s, rest).
Proof.
  induction s as [|c s IH]; intros Hcp Hnp.
  - reflexivity.
  - inversion Hcp as [|? ? Hc Hs]; subst.
    apply no_pair_cons in Hnp as [Hnp Hlow].
    cbn [escape_sub]. rewrite <- app_assoc.
    rewrite (scanstring_encoded c).
    + rewrite IH by assumption. reflexivity.
    + apply encode_char_cases, Hc.
    + intros Hh. specialize (Hlow Hh). destruct s as [|d s'].
      * apply no_low_escape_quote.
      * cbn [escape_sub]. rewrite <- app_assoc.
        inversion Hs; subst.
        eapply no_low_escape_encoded; [apply encode_char_cases; assumption | exact Hlow].
Qed.

(** *** Numbers *)

Lemma span_digits_app s rest :
  value_end rest ->
  span_digits (s ++ rest) = (fst (span_digits s), snd (span_digits s) ++ rest).
Proof.
  intros Hr. induction s as [|c s IH].
  - destruct rest as [|c r]; [reflexivity|].
    cbn [app span_digits]. cbn in Hr.
    replace (is_digit c) with false; [reflexivity|].
    unfold is_digit. destruct Hr as [-> | ->]; reflexivity.
  - cbn [app span_digits]. destruct (is_digit c); [|reflexivity].
    rewrite IH. destruct (span_digits s). reflexivity.
Qed.

Lemma span_digits_split s : s = fst (span_digits s) ++ snd (span_digits s).
Proof.
  induction s as [|c s IH]; [reflexivity|].
  cbn [span_digits]. destruct (is_digit c); [|reflexivity].
  destruct (span_digits s). cbn in *. congruence.
Qed.

Lemma match_digits1_app s rest m r :
  value_end rest -> match_digits1 s = Some (m, r) ->
  match_digits1 (s ++ rest) = Some (m, r ++ rest).
Proof.
  intros Hr. destruct s as [|c s]; [discriminate|].
  cbn [app match_digits1].
  destruct (c =? 48); [intros [= <- <-]; reflexivity|].
  destruct (is_digit c); [|discriminate].
  rewrite (span_digits_app s rest Hr). destruct (span_digits s).
  intros [= <- <-]. reflexivity.
Qed.

Lemma match_digits1_split s m r : match_digits1 s = Some (m, r) -> s = m ++ r.
Proof.
  destruct s as [|c s]; [discriminate|]. cbn [match_digits1].
  destruct (Z.eqb_spec c 48) as [->|]; [intros [= <- <-]; reflexivity|].
  destruct (is_digit c); [|discriminate].
  pose proof (span_digits_split s) as Hs. destruct (span_digits s).
  intros [= <- <-]. cbn in *. congruence.
Qed.

Lemma match_integer_app s rest m r :
  value_end rest -> match_integer s = Some (m, r) ->
  match_integer (s ++ rest) = Some (m, r ++ rest).
Proof.
  intros Hr. destruct s as [|c s]; [discriminate|].
  cbn [app match_integer]. destruct (c =? 45).
  - destruct (match_digits1 s) as [[d r']|] eqn:Hd; [|discriminate].
    intros [= <- <-]. rewrite (match_digits1_app _ _ _ _ Hr Hd). reflexivity.
  - apply (match_digits1_app (c :: s)), Hr.
Qed.

Lemma match_integer_split s m r : match_integer s = Some (m, r) -> s = m ++ r.
Proof.
  destruct s as [|c s]; [discriminate|]. cbn [match_integer].
  destruct (Z.eqb_spec c 45) as [->|].
  - destruct (match_digits1 s) as [[d r']|] eqn:Hd; [|discriminate].
    intros [= <- <-]. apply match_digits1_split in Hd. cbn. congruence.
  - apply match_digits1_split.
Qed.

Lemma value_end_head rest c r :
  value_end rest -> rest = c :: r -> c = 44 \/ c = 10.
Proof. intros H ->. exact H. Qed.

Lemma match_frac_app s rest :
  value_end rest ->
  match_frac (s ++ rest) = (fst (match_frac s), snd (match_frac s) ++ rest).
Proof.
  intros Hr. destruct s as [|c s].
  - destruct rest as [|c r]; [reflexivity|]. cbn [app match_frac].
    replace (c =? 46) with false; [reflexivity|].
    destruct Hr as [-> | ->]; reflexivity.
  - cbn [app match_frac]. destruct (c =? 46); [|reflexivity].
    rewrite (span_digits_app s rest Hr).
    destruct (span_digits s) as [[|d ds] r']; reflexivity.
Qed.

Lemma match_frac_split s : s = fst (match_frac s) ++ snd (match_frac s).
Proof.
  destruct s as [|c s]; [reflexivity|]. cbn [match_frac].
  destruct (Z.eqb_spec c 46) as [->|]; [|reflexivity].
  pose proof (span_digits_split s) as Hs.
  destruct (span_digits s) as [[|d ds] r']; [reflexivity|].
  cbn in *. congruence.
Qed.

Lemma match_exp_app s rest :
  value_end rest ->
  match_exp (s ++ rest) = (fst (match_exp s), snd (match_exp s) ++ rest).
Proof.
  intros Hr. destruct s as [|c s].
  - destruct rest as [|c r]; [reflexivity|]. cbn [app match_exp].
    replace ((c =? 101) || (c =? 69)) with false; [reflexivity|].
    destruct Hr as [-> | ->]; reflexivity.
  - cbn [app match_exp]. destruct ((c =? 101) || (c =? 69)); [|reflexivity].
    destruct s as [|sg s].
    + destruct rest as [|d r]; [reflexivity|]. cbn [app].
      replace ((d =? 45) || (d =? 43)) with false
        by (destruct Hr as [-> | ->]; reflexivity).
      replace (span_digits (d :: r)) with (@nil Z, d :: r); [reflexivity|].
      cbn [span_digits]. replace (is_digit d) with false; [reflexivity|].
      destruct Hr as [-> | ->]; reflexivity.
    + cbn [app]. destruct ((sg =? 45) || (sg =? 43)).
      * rewrite (span_digits_app s rest Hr).
        destruct (span_digits s) as [[|d ds] r']; reflexivity.
      * change (sg :: s ++ rest) with ((sg :: s) ++ rest).
        rewrite (span_digits_app (sg :: s) rest Hr).
        destruct (span_digits (sg :: s)) as [[|d ds] r']; reflexivity.
Qed.

Lemma match_exp_split s : s = fst (match_exp s) ++ snd (match_exp s).
Proof.
  destruct s as [|c s]; [reflexivity|]. cbn [match_exp].
  destruct ((c =? 101) || (c =? 69)); [|reflexivity].
  destruct s as [|sg s]; [reflexivity|].
  destruct ((sg =? 45) || (sg =? 43)).
  - pose proof (span_digits_split s) as Hs.
    destruct (span_digits s) as [[|d ds] r']; [reflexivity|].
    cbn in *. congruence.
  - pose proof (span_digits_split (sg :: s)) as Hs.
    destruct (span_digits (sg :: s)) as [[|d ds] r']; [reflexivity|].
    cbn [fst snd app] in *. congruence.
Qed.

Lemma match_number_app s rest i f e r :
  value_end rest -> match_number s = Some (i, f, e, r) ->
  match_number (s ++ rest) = Some (i, f, e, r ++ rest).
Proof.
  intros Hr. unfold match_number.
  destruct (match_integer s) as [[i' r1]|] eqn:Hi; [|discriminate].
  rewrite (match_integer_app _ _ _ _ Hr Hi).
  rewrite (match_frac_app r1 rest Hr). destruct (match_frac r1) as [f' r2].
  cbn [fst snd]. rewrite (match_exp_app r2 rest Hr).
  destruct (match_exp r2) as [e' r3]. cbn [fst snd].
  intros [= <- <- <- <-]. reflexivity.
Qed.

Lemma match_number_split s i f e r :
  match_number s = Some (i, f, e, r) -> s = i ++ f ++ e ++ r.
Proof.
  unfold match_number.
  destruct (match_integer s) as [[i' r1]|] eqn:Hi; [|discriminate].
  apply match_integer_split in Hi.
  pose proof (match_frac_split r1) as Hf. destruct (match_frac r1) as [f' r2].
  pose proof (match_exp_split r2) as He. destruct (match_exp r2) as [e' r3].
  cbn [fst snd] in *. intros [= <- <- <- <-]. congruence.
Qed.

(** *** Integers *)

Lemma chars_uint_chars u : chars_uint (uint_chars u) = u.
Proof. induction u; cbn; congruence. Qed.

Lemma span_digits_uint u : span_digits (uint_chars u) = (uint_chars u, []).
Proof. induction u; cbn [uint_chars span_digits]; [reflexivity|..]; rewrite IHu; reflexivity. Qed.

Lemma to_int_canonical z : no_leading_zero (Z.to_int z).
Proof.
  pose proof (DecimalZ.to_of (Z.to_int z)) as H.
  rewrite DecimalZ.of_to in H.
  destruct (Z.to_int z) as [u|u]; cbn in H.
  - injection H as H. unfold Decimal.unorm in H.
    pose proof (DecimalFacts.nzhead_nonzero u) as Hnz.
    destruct (Decimal.nzhead u) eqn:E;
      try (exfalso; exact (Hnz _ eq_refl)); rewrite H;
      first [ apply nlz_zero
            | apply nlz_pos; [discriminate | intros u'; discriminate] ].
  - pose proof (DecimalFacts.nzhead_nonzero u) as Hnz.
    destruct (Decimal.nzhead u) eqn:E;
      try (exfalso; exact (Hnz _ eq_refl)); try discriminate H;
      injection H as H; rewrite H;
      (apply nlz_neg; [discriminate | intros u'; discriminate]).
Qed.

Lemma match_digits1_uint u :
  u <> Decimal.Nil -> (forall u', u <> Decimal.D0 u') ->
  match_digits1 (uint_chars u) = Some (uint_chars u, []).
Proof.
  intros Hn Hz. destruct u; try congruence; try (exfalso; eapply Hz; reflexivity);
    cbn [uint_chars match_digits1]; cbn; rewrite span_digits_uint; reflexivity.
Qed.

Lemma match_integer_intstr z : match_integer (intstr z) = Some (intstr z, []).
Proof.
  unfold intstr. destruct (to_int_canonical z) as [|u Hn Hz|u Hn Hz].
  - reflexivity.
  - cbn [int_chars]. pose proof (match_digits1_uint u Hn Hz) as H.
    destruct u; try congruence; try (exfalso; eapply Hz; reflexivity); exact H.
  - cbn [int_chars match_integer]. cbn.
    rewrite (match_digits1_uint u Hn Hz). reflexivity.
Qed.

Lemma match_number_intstr z : match_number (intstr z) = Some (intstr z, [], [], []).
Proof. unfold match_number. rewrite match_integer_intstr. reflexivity. Qed.

Lemma parse_int_intstr z : parse_int (intstr z) = z.
Proof.
  unfold intstr. rewrite <- (DecimalZ.of_to z) at 2.
  destruct (to_int_canonical z) as [|u Hn Hz|u Hn Hz].
  - reflexivity.
  - cbn [int_chars]. pose proof (chars_uint_chars u) as Hu.
    destruct u; try congruence; cbn [uint_chars parse_int] in *; cbn [Z.eqb Pos.eqb] in *;
      rewrite Hu; reflexivity.
  - cbn [int_chars parse_int]. cbn [Z.eqb Pos.eqb]. rewrite chars_uint_chars. reflexivity.
Qed.

Lemma match_number_start s m :
  match_number s = Some m -> exists c r, s = c :: r /\ number_start c.
Proof.
  unfold match_number.
  destruct (match_integer s) as [[i r1]|] eqn:Hi; [|discriminate]. intros _.
  destruct s as [|c s]; [discriminate|]. exists c, s. split; [reflexivity|].
  cbn [match_integer] in Hi. destruct (Z.eqb_spec c 45); [right; assumption|].
  left. cbn [match_digits1] in Hi.
  destruct (Z.eqb_spec c 48) as [->|]; [reflexivity|].
  destruct (is_digit c); [reflexivity|discriminate].
Qed.

Lemma number_start_range c : number_start c -> 45 <= c <= 57.
Proof.
  intros [H| ->]; [|lia]. unfold is_digit in H.
  apply andb_true_iff in H as [H1 H2].
  apply Z.leb_le in H1, H2. lia.
Qed.

Lemma startswith_head_false p c r :
  match p with a :: _ => a <> c | [] => False end -> startswith p (c :: r) = false.
Proof.
  destruct p as [|a p]; [intros []|]. intros Ha. cbn [startswith].
  destruct (Z.eqb_spec a c); [contradiction|reflexivity].
Qed.

Section CodecFacts.
Context {F : PyFloat}.

Lemma scan_once_number n s i f e rest :
  match_number s = Some (i, f, e, rest) ->
  scan_once (S n) s =
  Some (if nonempty f || nonempty e
        then VFloat (float_of_literal (i ++ f ++ e))
        else VInt (parse_int i), rest).
Proof.
  intros Hm. destruct (match_number_start _ _ Hm) as (c & r & -> & Hc).
  apply number_start_range in Hc.
  cbn [scan_once]. zdec.
  rewrite !startswith_head_false by (vm_compute; lia).
  rewrite Hm. destruct (nonempty f || nonempty e); reflexivity.
Qed.

Lemma scan_once_intstr n z rest :
  value_end rest -> scan_once (S n) (intstr z ++ rest) = Some (VInt z, rest).
Proof.
  intros Hr.
  rewrite (scan_once_number n _ (intstr z) [] [] rest).
  - cbn [nonempty orb]. rewrite parse_int_intstr. reflexivity.
  - apply (match_number_app _ _ _ _ _ _ Hr (match_number_intstr z)).
Qed.

Lemma scan_once_float_literal n t rest :
  value_end rest -> is_float_literal t = true ->
  scan_once (S n) (t ++ rest) = Some (VFloat (float_of_literal t), rest).
Proof.
  intros Hr Ht. unfold is_float_literal in Ht.
  destruct (match_number t) as [[[[i f] e] r]|] eqn:Hm; [|discriminate].
  destruct r; [|discriminate].
  pose proof (match_number_split _ _ _ _ _ Hm) as Hs. rewrite app_nil_r in Hs.
  rewrite (scan_once_number n _ i f e rest).
  - rewrite Ht, <- Hs. reflexivity.
  - apply (match_number_app _ _ _ _ _ _ Hr Hm).
Qed.

Lemma scan_once_constant n c rest :
  scan_once (S n) (constant_name c ++ rest) = Some (VFloat (float_constant c), rest).
Proof. destruct c; reflexivity. Qed.

Context {L : PyFloatLaws F}.

(** What [floatstr] writes for a float the decoder built. *)
Lemma floatstr_cases f :
  decoded_float f ->
  (exists c, floatstr f = constant_name c /\ float_constant c = f)
  \/ (is_float_literal (floatstr f) = true /\ float_of_literal (floatstr f) = f).
Proof.
  intros [c|t Ht].
  - left. exists c. split; [apply floatstr_constant | reflexivity].
  - destruct (floatstr_literal t Ht) as [H|H]; [right; exact H | left; exact H].
Qed.

Lemma scan_once_floatstr n f rest :
  decoded_float f -> value_end rest ->
  scan_once (S n) (floatstr f ++ rest) = Some (VFloat f, rest).
Proof.
  intros Hf Hr. destruct (floatstr_cases f Hf) as [(c & -> & <-)|[Hl Hv]].
  - apply scan_once_constant.
  - rewrite (scan_once_float_literal n _ rest Hr Hl), Hv. reflexivity.
Qed.

End CodecFacts.

Section Values.
Context {F : PyFloat}.

Lemma value_ind' (P : value -> Prop) :
  P VNone -> (forall b, P (VBool b)) -> (forall z, P (VInt z)) ->
  (forall f, P (VFloat f)) -> (forall s, P (VStr s)) ->
  (forall l, Forall P l -> P (VList l)) ->
  (forall d, Forall (fun kv => P (snd kv)) d -> P (VDict d)) ->
  forall v, P v.
Proof.
  intros HN HB HI HF HS HL HD.
  fix IH 1. intros [| b | z | f | s | l | d].
  - exact HN.
  - apply HB.
  - apply HI.
  - apply HF.
  - apply HS.
  - apply HL. induction l as [|x l IHl]; constructor; [apply IH | exact IHl].
  - apply HD. induction d as [|[k x] d IHd]; constructor; [apply IH | exact IHd].
Qed.

(** [dict(pairs)] of pairs with distinct keys is the list itself. *)
Lemma dict_setitem_fresh k v d :
  k ∉ map fst d -> dict_setitem k v d = d ++ [(k, v)].
Proof.
  induction d as [|[k' v'] d IH]; intros Hk; [reflexivity|].
  cbn [dict_setitem map fst] in *. apply not_elem_of_cons in Hk as [Hne Hk].
  rewrite bool_decide_eq_false_2 by exact Hne.
  cbn [app]. rewrite IH by exact Hk. reflexivity.
Qed.

Lemma dict_of_pairs_fresh d acc :
  NoDup (map fst (acc ++ d)) ->
  fold_left (fun d kv => dict_setitem (fst kv) (snd kv) d) d acc = acc ++ d.
Proof.
  revert acc. induction d as [|[k v] d IH]; intros acc Hnd.
  - rewrite app_nil_r. reflexivity.
  - cbn [fold_left fst snd]. rewrite dict_setitem_fresh.
    + rewrite IH; rewrite <- app_assoc; [reflexivity|exact Hnd].
    + rewrite map_app in Hnd. apply NoDup_app in Hnd as (_ & Hd & _).
      intros Hin. apply (Hd k Hin). cbn. left.
Qed.

Lemma dict_of_pairs_nodup d : NoDup (map fst d) -> dict_of_pairs d = d.
Proof. intros H. apply (dict_of_pairs_fresh d []). exact H. Qed.

(** *** The shape of the encoder's output *)

Lemma separated_then sep c cs k :
  separated sep (c :: cs) ++ k = c ++ chunks_then sep cs k.
Proof.
  cbn [separated]. rewrite <- app_assoc. f_equal.
  induction cs as [|c' cs IH]; [reflexivity|].
  cbn [map concat chunks_then]. rewrite <- !app_assoc, IH. reflexivity.
Qed.

Lemma skip_ws_spaces n t : skip_ws (repeat 32 n ++ t) = skip_ws t.
Proof. induction n as [|n IH]; [reflexivity|exact IH]. Qed.

Lemma skip_ws_newline_indent indent level t :
  skip_ws (newline_indent indent level ++ t) = skip_ws t.
Proof. unfold newline_indent. cbn [app skip_ws is_ws Z.eqb Pos.eqb orb]. apply skip_ws_spaces. Qed.

Lemma value_start_not_ws c : value_start c -> is_ws c = false.
Proof. unfold value_start. destruct (is_ws c); [discriminate|reflexivity]. Qed.

Lemma value_start_not_close c : value_start c -> (c =? 93) = false.
Proof.
  unfold value_start. destruct (c =? 93); [|reflexivity].
  rewrite orb_true_r. discriminate.
Qed.

Lemma skip_ws_starts t : starts value_start t -> skip_ws t = t.
Proof.
  destruct t as [|c r]; [intros []|]. intros H. cbn [skip_ws].
  rewrite (value_start_not_ws c H). reflexivity.
Qed.

Lemma startswith_close t r :
  starts value_start t -> startswith [93] (t ++ r) = false.
Proof.
  destruct t as [|c t]; [intros []|]. intros H. cbn [app startswith].
  rewrite Z.eqb_sym, (value_start_not_close c H). reflexivity.
Qed.

Lemma starts_length P t : starts P t -> (0 < length t)%nat.
Proof. destruct t; [intros []|]. cbn. lia. Qed.

Lemma starts_app P t r : starts P t -> starts P (t ++ r).
Proof. destruct t; [intros []|]. exact id. Qed.

Lemma number_start_value_start c : number_start c -> value_start c.
Proof.
  intros H. apply number_start_range in H. unfold value_start, is_ws.
  zdec. reflexivity.
Qed.

Lemma starts_number s m : match_number s = Some m -> starts value_start s.
Proof.
  intros H. destruct (match_number_start _ _ H) as (c & r & -> & Hc).
  apply number_start_value_start, Hc.
Qed.

Lemma starts_constant c : starts value_start (constant_name c).
Proof. destruct c; reflexivity. Qed.

Lemma starts_float_literal t : is_float_literal t = true -> starts value_start t.
Proof.
  unfold is_float_literal. destruct (match_number t) eqn:E; [|discriminate].
  intros _. eapply starts_number, E.
Qed.

Section Roundtrip.
Context {L : PyFloatLaws F}.
Variable indent : nat.

Lemma starts_iterencode P v level :
  well_formed P v -> starts value_start (_iterencode indent v level).
Proof.
  intros Hv. destruct Hv as [|b|z|f Hf|s Hs|l Hl|d Hn Hd].
  - reflexivity.
  - destruct b; reflexivity.
  - eapply starts_number, match_number_intstr.
  - cbn [_iterencode]. destruct (floatstr_cases f Hf) as [(c & -> & _)|[Hl _]].
    + apply starts_constant.
    + apply starts_float_literal, Hl.
  - reflexivity.
  - destruct l; reflexivity.
  - destruct d; reflexivity.
Qed.

Lemma iterencode_list x xs level rest :
  _iterencode indent (VList (x :: xs)) level ++ rest =
  91 :: newline_indent indent (S level)
     ++ _iterencode indent x (S level)
     ++ chunks_then (44 :: newline_indent indent (S level))
          (map (fun y => _iterencode indent y (S level)) xs)
          (newline_indent indent level ++ 93 :: rest).
Proof.
  cbn [_iterencode]. cbn [app]. f_equal.
  rewrite <- !app_assoc. f_equal.
  change (map (fun y => _iterencode indent y (S level)) (x :: xs))
    with (_iterencode indent x (S level) :: map (fun y => _iterencode indent y (S level)) xs).
  etransitivity; [apply separated_then | reflexivity].
Qed.

Lemma iterencode_dict kv d level rest :
  _iterencode indent (VDict (kv :: d)) level ++ rest =
  123 :: newline_indent indent (S level)
      ++ item_chunk indent level kv
      ++ chunks_then (44 :: newline_indent indent (S level))
           (map (item_chunk indent level) d)
           (newline_indent indent level ++ 125 :: rest).
Proof.
  cbn [_iterencode]. cbn [app]. f_equal.
  rewrite <- !app_assoc. f_equal.
  change (map (fun kv => py_encode_basestring_ascii (fst kv) ++ [58; 32]
                         ++ _iterencode indent (snd kv) (S level)) (kv :: d))
    with (item_chunk indent level kv :: map (item_chunk indent level) d).
  etransitivity; [apply separated_then | reflexivity].
Qed.

Section Loops.
Variable scan : pystr -> option (value * pystr).
Variable level : nat.

Lemma value_end_chunks cs k :
  value_end (chunks_then (44 :: newline_indent indent (S level)) cs (newline_indent indent level ++ k)).
Proof. destruct cs; cbn; [right|left]; reflexivity. Qed.

Lemma length_chunks_then cs k :
  (length cs <= length (chunks_then (44%Z :: newline_indent indent (S level)) cs k))%nat.
Proof.
  induction cs as [|c cs IH]; cbn [chunks_then length]; [lia|].
  cbn [app length]. rewrite !length_app. lia.
Qed.

Lemma array_items_chunks xs : forall x acc n k,
  Forall (fun y => well_formed wf_str y /\ parses indent scan level y) (x :: xs) ->
  (length xs < n)%nat ->
  array_items scan n
    (_iterencode indent x (S level)
       ++ chunks_then (44 :: newline_indent indent (S level))
            (map (fun y => _iterencode indent y (S level)) xs)
            (newline_indent indent level ++ 93 :: k)) acc
  = Some (VList (acc ++ x :: xs), k).
Proof.
  induction xs as [|y ys IH]; intros x acc n k Hall Hn;
    destruct n as [|n]; try lia; inversion Hall as [|? ? [Hwx Hpx] Hrest]; subst.
  - cbn [map chunks_then array_items].
    rewrite (Hpx _) by (cbn; right; reflexivity).
    rewrite skip_ws_newline_indent. cbn. reflexivity.
  - cbn [map chunks_then array_items].
    rewrite (Hpx _) by (cbn; left; reflexivity).
    cbn [app skip_ws is_ws Z.eqb Pos.eqb orb].
    rewrite skip_ws_newline_indent.
    inversion Hrest as [|? ? [Hwy Hpy] _]; subst.
    rewrite skip_ws_starts by (apply starts_app, (starts_iterencode _ _ _ Hwy)).
    rewrite IH; [|exact Hrest|cbn [length] in Hn; lia].
    rewrite <- app_assoc. reflexivity.
Qed.

Lemma object_pairs_chunks d : forall kv acc n k,
  Forall (fun kv => wf_str (fst kv) /\ well_formed wf_str (snd kv) /\ parses indent scan level (snd kv)) (kv :: d) ->
  (length d < n)%nat ->
  object_pairs scan n
    (escape_sub (fst kv) ++ 34 :: 58 :: 32 :: _iterencode indent (snd kv) (S level)
       ++ chunks_then (44 :: newline_indent indent (S level))
            (map (item_chunk indent level) d)
            (newline_indent indent level ++ 125 :: k)) acc
  = Some (VDict (dict_of_pairs (acc ++ kv :: d)), k).
Proof.
  induction d as [|kv' d IH]; intros [key v] acc n k Hall Hn;
    destruct n as [|n]; try lia;
    inversion Hall as [|? ? (Hk & Hwv & Hpv) Hrest]; subst;
    destruct Hk as [Hcp Hnp]; cbn [fst snd] in *.
  - cbn [map chunks_then object_pairs].
    rewrite scanstring_escape_sub by assumption.
    cbn [skip_ws is_ws Z.eqb Pos.eqb orb].
    rewrite skip_ws_starts by (apply starts_app, (starts_iterencode _ _ _ Hwv)).
    rewrite (Hpv _) by (cbn; right; reflexivity).
    rewrite skip_ws_newline_indent. cbn. reflexivity.
  - cbn [map chunks_then object_pairs].
    rewrite scanstring_escape_sub by assumption.
    cbn [skip_ws is_ws Z.eqb Pos.eqb orb].
    rewrite skip_ws_starts by (apply starts_app, (starts_iterencode _ _ _ Hwv)).
    rewrite (Hpv _) by (cbn; left; reflexivity).
    cbn [app skip_ws is_ws Z.eqb Pos.eqb orb].
    rewrite skip_ws_newline_indent.
    unfold item_chunk at 1, py_encode_basestring_ascii.
    cbn [app skip_ws is_ws Z.eqb Pos.eqb orb]. rewrite <- !app_assoc. cbn [app].
    rewrite IH; [|exact Hrest|cbn [length] in Hn; lia].
    rewrite <- app_assoc. reflexivity.
Qed.

End Loops.

Lemma depth_list_elem (x : value) l :
  x ∈ l -> (depth x < depth (VList l))%nat.
Proof.
  cbn [depth]. induction 1 as [x l|x y l _ IH]; cbn [fold_right]; lia.
Qed.

Lemma depth_dict_elem (kv : pystr * value) d :
  kv ∈ d -> (depth (snd kv) < depth (VDict d))%nat.
Proof.
  cbn [depth]. induction 1 as [x l|x y l _ IH]; cbn [fold_right]; lia.
Qed.

(** The scanner reads back the encoder's output. *)
Lemma scan_once_iterencode v :
  well_formed wf_str v -> forall level fuel rest,
  (depth v < fuel)%nat -> value_end rest ->
  scan_once fuel (_iterencode indent v level ++ rest) = Some (v, rest).
Proof.
  induction v as [|b|z|f|s|l IH|d IH] using value_ind';
    intros Hv level fuel rest Hfuel Hrest;
    (destruct fuel as [|fuel]; [lia|]); inversion Hv; subst.
  - reflexivity.
  - destruct b; reflexivity.
  - apply scan_once_intstr, Hrest.
  - apply scan_once_floatstr; assumption.
  - cbn [_iterencode py_encode_basestring_ascii app scan_once Z.eqb Pos.eqb].
    rewrite <- app_assoc. cbn [app].
    match goal with H : wf_str _ |- _ => destruct H as [Hcp Hnp] end.
    rewrite scanstring_escape_sub by assumption. reflexivity.
  - destruct l as [|x xs]; [reflexivity|].
    rewrite iterencode_list. cbn [scan_once Z.eqb Pos.eqb]. unfold JSONArray.
    rewrite skip_ws_newline_indent.
    match goal with H : Forall (well_formed _) _ |- _ => rename H into Hwf end.
    assert (Hx : well_formed wf_str x) by (inversion Hwf; assumption).
    rewrite skip_ws_starts by (apply starts_app, (starts_iterencode _ _ _ Hx)).
    pose proof (starts_iterencode _ x (S level) Hx) as Hst.
    rewrite startswith_close by exact Hst.
    apply array_items_chunks.
    + apply Forall_forall. intros y Hy. split.
      * rewrite Forall_forall in Hwf. apply Hwf, Hy.
      * intros r Hr. rewrite Forall_forall in IH, Hwf.
        apply IH; [exact Hy | apply Hwf, Hy | | exact Hr].
        pose proof (depth_list_elem y (x :: xs) Hy). lia.
    + rewrite length_app. apply starts_length in Hst.
      pose proof (length_chunks_then level
        (map (fun y => _iterencode indent y (S level)) xs)
        (newline_indent indent level ++ 93 :: rest)) as Hlen.
      rewrite length_map in Hlen. lia.
  - destruct d as [|kv d']; [reflexivity|].
    rewrite iterencode_dict. cbn [scan_once Z.eqb Pos.eqb]. unfold JSONObject.
    rewrite skip_ws_newline_indent.
    unfold item_chunk at 1, py_encode_basestring_ascii.
    cbn [app skip_ws is_ws Z.eqb Pos.eqb orb]. rewrite <- !app_assoc. cbn [app].
    match goal with H : Forall _ (kv :: d') |- _ => rename H into Hwf end.
    match goal with H : NoDup _ |- _ => rename H into Hnd end.
    rewrite (object_pairs_chunks (scan_once fuel) level d' kv []).
    + cbn [app]. rewrite dict_of_pairs_nodup by exact Hnd. reflexivity.
    + apply Forall_forall. intros y Hy. rewrite Forall_forall in IH, Hwf.
      destruct (Hwf y Hy) as [Hk Hw]. split; [exact Hk|]. split; [exact Hw|].
      intros r Hr. apply IH; [exact Hy | exact Hw | | exact Hr].
      pose proof (depth_dict_elem y (kv :: d') Hy). lia.
    + rewrite !length_app. cbn [length]. rewrite !length_app.
      pose proof (length_chunks_then level (map (item_chunk indent level) d')
        (newline_indent indent level ++ 125 :: rest)) as Hlen.
      rewrite length_map in Hlen. lia.
Qed.

End Roundtrip.
End Values.

Lemma hex_digit_ascii d : 0 <= d < 16 -> is_ascii (hex_digit d).
Proof. unfold hex_digit, is_ascii. destruct (d <? 10); lia. Qed.

Lemma backslash_u_ascii n : Forall is_ascii (backslash_u n).
Proof.
  unfold backslash_u, format_04x.
  repeat (constructor; [first [unfold is_ascii; lia | apply hex_digit_ascii, Z.mod_pos_bound; lia]|]).
  constructor.
Qed.

Lemma encode_char_ascii c : Forall is_ascii (encode_char c).
Proof.
  unfold encode_char, escape_ascii_matches.
  destruct (Z.eqb_spec c 92) as [->|]; [cbn; ascii_list|].
  destruct (Z.eqb_spec c 34) as [->|]; [cbn; ascii_list|].
  cbn [orb].
  destruct (Z.leb_spec 32 c); destruct (Z.leb_spec c 126); cbn [andb negb orb];
    try (solve [ascii_list]).
  all: unfold escape_replace.
  all: repeat match goal with |- context [Z.eqb ?c ?k] => destruct (Z.eqb_spec c k) end;
       try (solve [ascii_list]).
  all: match goal with |- context [Z.ltb ?c ?k] => destruct (Z.ltb c k) end; cbv zeta;
       [apply backslash_u_ascii | apply Forall_app; split; apply backslash_u_ascii].
Qed.

Lemma escape_sub_ascii s : Forall is_ascii (escape_sub s).
Proof.
  induction s as [|c s IH]; [constructor|].
  cbn [escape_sub]. apply Forall_app. split; [apply encode_char_ascii | exact IH].
Qed.

Lemma encode_basestring_ascii s : Forall is_ascii (py_encode_basestring_ascii s).
Proof.
  unfold py_encode_basestring_ascii. constructor; [unfold is_ascii; lia|].
  apply Forall_app. split; [apply escape_sub_ascii | ascii_list].
Qed.

Lemma uint_chars_ascii u : Forall is_ascii (uint_chars u).
Proof. induction u; cbn [uint_chars]; constructor; (unfold is_ascii; lia) || assumption. Qed.

Lemma intstr_ascii z : Forall is_ascii (intstr z).
Proof.
  unfold intstr. destruct (Z.to_int z); cbn [int_chars];
    [|constructor; [unfold is_ascii; lia|]]; apply uint_chars_ascii.
Qed.

Lemma is_digit_ascii c : is_digit c = true -> is_ascii c.
Proof.
  unfold is_digit, is_ascii. intros H. apply andb_true_iff in H as [H1 H2].
  apply Z.leb_le in H1, H2. lia.
Qed.

Lemma span_digits_ascii s : Forall is_ascii (fst (span_digits s)).
Proof.
  induction s as [|c s IH]; [constructor|]. cbn [span_digits].
  destruct (is_digit c) eqn:Hc; [|constructor].
  destruct (span_digits s). cbn [fst] in *. constructor; [apply is_digit_ascii, Hc | exact IH].
Qed.

Lemma match_digits1_ascii s m r : match_digits1 s = Some (m, r) -> Forall is_ascii m.
Proof.
  destruct s as [|c s]; [discriminate|]. cbn [match_digits1].
  destruct (Z.eqb_spec c 48); [intros [= <- <-]; ascii_list|].
  destruct (is_digit c) eqn:Hc; [|discriminate].
  pose proof (span_digits_ascii s) as Hs. destruct (span_digits s).
  intros [= <- <-]. constructor; [apply is_digit_ascii, Hc | exact Hs].
Qed.

Lemma match_integer_ascii s m r : match_integer s = Some (m, r) -> Forall is_ascii m.
Proof.
  destruct s as [|c s]; [discriminate|]. cbn [match_integer].
  destruct (Z.eqb_spec c 45).
  - destruct (match_digits1 s) as [[d r']|] eqn:Hd; [|discriminate].
    intros [= <- <-]. constructor; [unfold is_ascii; lia|].
    eapply match_digits1_ascii, Hd.
  - apply match_digits1_ascii.
Qed.

Lemma match_frac_ascii s : Forall is_ascii (fst (match_frac s)).
Proof.
  destruct s as [|c s]; [constructor|]. cbn [match_frac].
  destruct (Z.eqb_spec c 46); [|constructor].
  pose proof (span_digits_ascii s) as Hs.
  destruct (span_digits s) as [[|d ds] r']; [constructor|].
  cbn [fst] in *. constructor; [unfold is_ascii; lia | exact Hs].
Qed.

Lemma match_exp_ascii s : Forall is_ascii (fst (match_exp s)).
Proof.
  destruct s as [|c s]; [constructor|]. cbn [match_exp].
  destruct ((c =? 101) || (c =? 69)) eqn:Hc; [|constructor].
  assert (is_ascii c).
  { apply orb_true_iff in Hc as [Hc|Hc]; apply Z.eqb_eq in Hc; unfold is_ascii; lia. }
  destruct s as [|sg s]; [constructor|].
  destruct ((sg =? 45) || (sg =? 43)) eqn:Hsg.
  - assert (is_ascii sg).
    { apply orb_true_iff in Hsg as [Hsg|Hsg]; apply Z.eqb_eq in Hsg; unfold is_ascii; lia. }
    pose proof (span_digits_ascii s) as Hs.
    destruct (span_digits s) as [[|d ds] r']; [constructor|].
    cbn [fst] in *. repeat (constructor; [assumption|]). exact Hs.
  - pose proof (span_digits_ascii (sg :: s)) as Hs.
    destruct (span_digits (sg :: s)) as [[|d ds] r']; [constructor|].
    cbn [fst] in *. constructor; assumption.
Qed.

Lemma float_literal_ascii t : is_float_literal t = true -> Forall is_ascii t.
Proof.
  unfold is_float_literal.
  destruct (match_number t) as [[[[i f] e] r]|] eqn:Hm; [|discriminate].
  destruct r; [|discriminate]. intros _.
  rewrite (match_number_split _ _ _ _ _ Hm), app_nil_r.
  unfold match_number in Hm.
  destruct (match_integer t) as [[i' r1]|] eqn:Hi; [|discriminate].
  pose proof (match_frac_ascii r1) as Hf. destruct (match_frac r1) as [f' r2].
  pose proof (match_exp_ascii r2) as He. destruct (match_exp r2) as [e' r3].
  cbn [fst] in *. injection Hm as <- <- <- _.
  rewrite !Forall_app. repeat split; try assumption.
  eapply match_integer_ascii, Hi.
Qed.

Lemma constant_name_ascii c : Forall is_ascii (constant_name c).
Proof. destruct c; compute_text; ascii_list. Qed.

Lemma newline_indent_ascii indent level : Forall is_ascii (newline_indent indent level).
Proof.
  unfold newline_indent. constructor; [unfold is_ascii; lia|].
  induction (indent * level)%nat; cbn [repeat]; constructor; [unfold is_ascii; lia | assumption].
Qed.

Lemma separated_ascii sep cs :
  Forall is_ascii sep -> Forall (Forall is_ascii) cs -> Forall is_ascii (separated sep cs).
Proof.
  intros Hsep Hcs. destruct Hcs as [|c cs Hc Hcs]; [constructor|].
  cbn [separated]. apply Forall_app. split; [exact Hc|].
  induction Hcs as [|c' cs' Hc' _ IH]; [constructor|].
  cbn [map concat]. rewrite !Forall_app. auto.
Qed.

Section Ascii.
Context {F : PyFloat} {L : PyFloatLaws F}.

Lemma floatstr_ascii f : decoded_float f -> Forall is_ascii (floatstr f).
Proof.
  intros Hf. destruct (floatstr_cases f Hf) as [(c & -> & _)|[Hl _]].
  - apply constant_name_ascii.
  - apply float_literal_ascii, Hl.
Qed.

Lemma iterencode_ascii P indent v :
  well_formed P v -> forall level, Forall is_ascii (_iterencode indent v level).
Proof.
  induction v as [|b|z|f|s|l IH|d IH] using value_ind'; intros Hv level; inversion Hv; subst.
  - compute_text; ascii_list.
  - destruct b; compute_text; ascii_list.
  - apply intstr_ascii.
  - apply floatstr_ascii. assumption.
  - apply encode_basestring_ascii.
  - destruct l as [|x xs]; [compute_text; ascii_list|]. cbn [_iterencode].
    rewrite !Forall_app. repeat split; try apply newline_indent_ascii; try ascii_list.
    apply separated_ascii.
    + constructor; [unfold is_ascii; lia | apply newline_indent_ascii].
    + apply Forall_map. apply Forall_forall. intros y Hy.
      rewrite Forall_forall in IH. apply IH; [exact Hy|].
      match goal with H : Forall (well_formed _) _ |- _ => rewrite Forall_forall in H; apply H, Hy end.
  - destruct d as [|kv d']; [compute_text; ascii_list|]. cbn [_iterencode].
    rewrite !Forall_app. repeat split; try apply newline_indent_ascii; try ascii_list.
    apply separated_ascii.
    + constructor; [unfold is_ascii; lia | apply newline_indent_ascii].
    + apply Forall_map. apply Forall_forall. intros y Hy.
      rewrite !Forall_app. repeat split; [apply encode_basestring_ascii | ascii_list |].
      rewrite Forall_forall in IH. apply IH; [exact Hy|].
      match goal with H : Forall _ (kv :: d') |- _ => rewrite Forall_forall in H; apply H, Hy end.
Qed.

End Ascii.

Lemma fold_max_le {A : Type} (f : A -> nat) (l : list A) (B : nat) :
  (forall y, y ∈ l -> (f y <= B)%nat) ->
  (fold_right (fun x m => Nat.max (f x) m) O l <= B)%nat.
Proof.
  induction l as [|x l IH]; intros H; cbn [fold_right]; [lia|].
  apply Nat.max_lub; [apply H; left | apply IH; intros y Hy; apply H; right; exact Hy].
Qed.

Lemma length_separated_elem sep (c : pystr) cs :
  c ∈ cs -> (length c <= length (separated sep cs))%nat.
Proof.
  intros Hc. destruct cs as [|c0 cs]; [inversion Hc|].
  cbn [separated]. rewrite length_app.
  apply elem_of_cons in Hc as [->|Hc]; [lia|].
  assert (length c <= length (concat (map (fun x => sep ++ x) cs)))%nat; [|lia].
  induction cs as [|c1 cs IH]; [inversion Hc|].
  cbn [map concat]. rewrite !length_app.
  apply elem_of_cons in Hc as [->|Hc]; [lia|]. specialize (IH Hc). lia.
Qed.

Section Loads.
Context {F : PyFloat}.

Lemma depth_le_length indent v :
  forall level, (depth v <= length (_iterencode indent v level))%nat.
Proof.
  induction v as [|b|z|f|s|l IH|d IH] using value_ind'; intros level;
    try (cbn [depth]; lia).
  - destruct l as [|x xs]; [cbn; lia|].
    cbn [depth _iterencode]. rewrite !length_app. cbn [length].
    assert (fold_right (fun x m => Nat.max (depth x) m) O (x :: xs)
            <= length (separated (44%Z :: newline_indent indent (S level))
                 (map (fun y => _iterencode indent y (S level)) (x :: xs))))%nat; [|lia].
    apply fold_max_le. intros y Hy. rewrite Forall_forall in IH.
    etransitivity; [apply (IH y Hy (S level))|].
    apply length_separated_elem.
    apply list_elem_of_In, (in_map (fun y => _iterencode indent y (S level))), list_elem_of_In, Hy.
  - destruct d as [|kv d']; [cbn; lia|].
    cbn [depth _iterencode]. rewrite !length_app. cbn [length].
    set (chunk := fun kv : pystr * value => py_encode_basestring_ascii (fst kv) ++ [58; 32]
                         ++ _iterencode indent (snd kv) (S level)).
    assert (fold_right (fun kv m => Nat.max (depth (snd kv)) m) O (kv :: d')
            <= length (separated (44%Z :: newline_indent indent (S level))
                 (map chunk (kv :: d'))))%nat; [|lia].
    apply (fold_max_le (fun kv => depth (snd kv))). intros y Hy. rewrite Forall_forall in IH.
    etransitivity; [apply (IH y Hy (S level))|].
    etransitivity; [|apply (length_separated_elem _ (chunk y))].
    + unfold chunk. rewrite !length_app. lia.
    + apply list_elem_of_In, (in_map chunk), list_elem_of_In, Hy.
Qed.

Context {L : PyFloatLaws F}.

Lemma startswith_bom_ascii t : Forall is_ascii t -> startswith [0xfeff] t = false.
Proof.
  destruct 1 as [|c t Hc _]; [reflexivity|]. cbn [startswith].
  unfold is_ascii in Hc. zdec. reflexivity.
Qed.

(** Reading back what [json.dumps] wrote gives the value that was written. *)
Lemma json_loads_dumps v indent :
  well_formed wf_str v -> json_loads (json_dumps v indent) = Some v.
Proof.
  intros Hv. unfold json_loads, json_dumps, decode.
  rewrite startswith_bom_ascii by (eapply iterencode_ascii, Hv).
  rewrite skip_ws_starts by (eapply starts_iterencode, Hv).
  pose proof (scan_once_iterencode indent v Hv 0
    (S (length (_iterencode indent v 0))) []) as H.
  rewrite app_nil_r in H. rewrite H; [reflexivity| |exact I].
  pose proof (depth_le_length indent v 0). lia.
Qed.

End Loads.

Lemma span_digits_exact s d r r' :
  span_digits s = (d, r) -> no_digit r' -> span_digits (d ++ r') = (d, r').
Proof.
  revert d r. induction s as [|c s IH]; intros d r.
  - intros [= <- <-] Hr'. destruct r' as [|c' r'']; [reflexivity|].
    cbn [app span_digits]. cbn in Hr'. rewrite Hr'. reflexivity.
  - cbn [span_digits]. destruct (is_digit c) eqn:Hc.
    + destruct (span_digits s) as [d' r''] eqn:Hs. intros [= <- <-] Hr'.
      cbn [app span_digits]. rewrite Hc, (IH d' r'' eq_refl Hr'). reflexivity.
    + intros [= <- <-] Hr'. destruct r' as [|c' r'']; [reflexivity|].
      cbn [app span_digits]. cbn in Hr'. rewrite Hr'. reflexivity.
Qed.

Lemma match_digits1_exact s m r r' :
  match_digits1 s = Some (m, r) -> no_digit r' ->
  match_digits1 (m ++ r') = Some (m, r').
Proof.
  destruct s as [|c s]; [discriminate|]. cbn [match_digits1].
  destruct (Z.eqb_spec c 48) as [->|Hc]; [intros [= <- <-] _; reflexivity|].
  destruct (is_digit c) eqn:Hd; [|discriminate].
  destruct (span_digits s) as [d r''] eqn:Hs. intros [= <- <-] Hr'.
  cbn [app match_digits1]. rewrite (proj2 (Z.eqb_neq c 48) Hc), Hd.
  rewrite (span_digits_exact _ _ _ _ Hs Hr'). reflexivity.
Qed.

Lemma match_digits1_head c s m r :
  match_digits1 (c :: s) = Some (m, r) -> exists m', m = c :: m'.
Proof.
  cbn [match_digits1]. destruct (Z.eqb_spec c 48) as [->|];
    [intros [= <- <-]; eexists; reflexivity|].
  destruct (is_digit c); [|discriminate]. destruct (span_digits s).
  intros [= <- <-]. eexists; reflexivity.
Qed.

Lemma match_integer_exact s m r r' :
  match_integer s = Some (m, r) -> no_digit r' ->
  match_integer (m ++ r') = Some (m, r').
Proof.
  destruct s as [|c s]; [discriminate|]. cbn [match_integer].
  destruct (Z.eqb_spec c 45) as [->|Hc].
  - destruct (match_digits1 s) as [[d r'']|] eqn:Hd; [|discriminate].
    intros [= <- <-] Hr'. cbn [app match_integer Z.eqb Pos.eqb].
    rewrite (match_digits1_exact _ _ _ _ Hd Hr'). reflexivity.
  - intros Hm Hr'. pose proof (match_digits1_exact _ _ _ _ Hm Hr') as H.
    destruct (match_digits1_head _ _ _ _ Hm) as [m' ->].
    cbn [app match_integer]. rewrite (proj2 (Z.eqb_neq c 45) Hc). exact H.
Qed.

Lemma match_frac_like s : frac_like (fst (match_frac s)).
Proof.
  destruct s as [|c s]; [exact I|]. cbn [match_frac].
  destruct (Z.eqb_spec c 46); [|exact I].
  destruct (span_digits s) as [[|d ds] r]; [exact I|reflexivity].
Qed.

Lemma match_exp_like s : exp_like (fst (match_exp s)).
Proof.
  destruct s as [|c s]; [exact I|]. cbn [match_exp].
  destruct ((c =? 101) || (c =? 69)) eqn:Hc; [|exact I].
  assert (c = 101 \/ c = 69) as Hc'.
  { apply orb_true_iff in Hc as [Hc|Hc]; apply Z.eqb_eq in Hc; auto. }
  destruct s as [|sg s]; [exact I|].
  destruct ((sg =? 45) || (sg =? 43)).
  - destruct (span_digits s) as [[|d ds] r]; [exact I|exact Hc'].
  - destruct (span_digits (sg :: s)) as [[|d ds] r]; [exact I|exact Hc'].
Qed.

Lemma exp_like_no_digit e : exp_like e -> no_digit e.
Proof. destruct e as [|c e]; [exact id|]. intros [-> | ->]; reflexivity. Qed.

Lemma match_frac_exact s f r e :
  match_frac s = (f, r) -> exp_like e -> match_frac (f ++ e) = (f, e).
Proof.
  intros Hm He. destruct s as [|c s].
  - injection Hm as <- <-. destruct e as [|c' e']; [reflexivity|].
    cbn [app match_frac]. replace (c' =? 46) with false; [reflexivity|].
    destruct He as [-> | ->]; reflexivity.
  - cbn [match_frac] in Hm. destruct (Z.eqb_spec c 46) as [->|Hc].
    + destruct (span_digits s) as [[|d ds] r'] eqn:Hs; injection Hm as <- <-.
      * destruct e as [|c' e']; [reflexivity|].
        cbn [app match_frac]. replace (c' =? 46) with false; [reflexivity|].
        destruct He as [-> | ->]; reflexivity.
      * cbn [app match_frac Z.eqb Pos.eqb].
        change (d :: ds ++ e) with ((d :: ds) ++ e).
        rewrite (span_digits_exact _ _ _ _ Hs (exp_like_no_digit e He)). reflexivity.
    + injection Hm as <- <-. destruct e as [|c' e']; [reflexivity|].
      cbn [app match_frac]. replace (c' =? 46) with false; [reflexivity|].
      destruct He as [-> | ->]; reflexivity.
Qed.

Lemma match_exp_exact s e r : match_exp s = (e, r) -> match_exp e = (e, []).
Proof.
  intros Hm. destruct s as [|c s]; [injection Hm as <- <-; reflexivity|].
  cbn [match_exp] in Hm. destruct ((c =? 101) || (c =? 69)) eqn:Hc;
    [|injection Hm as <- <-; reflexivity].
  destruct s as [|sg s]; [injection Hm as <- <-; reflexivity|].
  destruct ((sg =? 45) || (sg =? 43)) eqn:Hsg.
  - destruct (span_digits s) as [[|d ds] r'] eqn:Hs; injection Hm as <- <-; [reflexivity|].
    cbn [match_exp]. rewrite Hc, Hsg.
    pose proof (span_digits_exact _ _ _ [] Hs I) as H. rewrite app_nil_r in H.
    rewrite H. reflexivity.
  - destruct (span_digits (sg :: s)) as [[|d ds] r'] eqn:Hs; injection Hm as <- <-;
      [reflexivity|].
    cbn [match_exp]. rewrite Hc.
    pose proof (span_digits_exact _ _ _ [] Hs I) as H. rewrite app_nil_r in H.
    assert (d = sg) as ->.
    { cbn [span_digits] in Hs. destruct (is_digit sg); [|discriminate].
      destruct (span_digits s). congruence. }
    rewrite Hsg, H. reflexivity.
Qed.

(** The text handed to [float] is a float literal on its own. *)
Lemma match_number_float_literal s i f e r :
  match_number s = Some (i, f, e, r) -> nonempty f || nonempty e = true ->
  is_float_literal (i ++ f ++ e) = true.
Proof.
  unfold match_number. intros Hm Hfe.
  destruct (match_integer s) as [[i' r1]|] eqn:Hi; [|discriminate].
  destruct (match_frac r1) as [f' r2] eqn:Hf.
  destruct (match_exp r2) as [e' r3] eqn:He.
  injection Hm as <- <- <- <-.
  pose proof (match_frac_like r1) as Hfl. rewrite Hf in Hfl.
  pose proof (match_exp_like r2) as Hel. rewrite He in Hel. cbn [fst] in *.
  unfold is_float_literal, match_number.
  rewrite (match_integer_exact _ _ _ (f' ++ e') Hi).
  - rewrite (match_frac_exact _ _ _ _ Hf Hel), (match_exp_exact _ _ _ He). exact Hfe.
  - destruct f' as [|c f'']; [apply exp_like_no_digit, Hel|].
    cbn in Hfl. subst c. reflexivity.
Qed.

(** *** What the string scanner returns *)

Lemma push_char_inv c o str rest :
  push_char c o = Some (str, rest) ->
  exists str', o = Some (str', rest) /\ str = c :: str'.
Proof.
  destruct o as [[str' rest']|]; [|discriminate].
  intros [= <- <-]. eexists; split; reflexivity.
Qed.

Lemma startswith_bu t :
  startswith [92; 117] t = true -> exists t', t = 92 :: 117 :: t'.
Proof.
  destruct t as [|a [|b t']]; cbn [startswith]; try discriminate.
  - rewrite andb_false_r. discriminate.
  - intros H. apply andb_true_iff in H as [Ha H]. apply andb_true_iff in H as [Hb _].
    apply Z.eqb_eq in Ha, Hb. subst. eexists; reflexivity.
Qed.

Lemma scanstring_inv s str rest :
  py_scanstring s = Some (str, rest) ->
  (exists t, s = 34 :: t /\ str = [] /\ rest = t)
  \/ (exists c t str', scan_step s c t /\ py_scanstring t = Some (str', rest)
                       /\ str = c :: str').
Proof.
  destruct s as [|c r]; [discriminate|]. cbn [py_scanstring].
  destruct (Z.eqb_spec c 34) as [->|H34].
  { intros [= <- <-]. left. eexists; repeat split. }
  right. destruct (Z.eqb_spec c 92) as [->|H92].
  - destruct r as [|esc r1]; [discriminate|].
    destruct (Z.eqb_spec esc 117) as [->|H117].
    + destruct r1 as [|h1 [|h2 [|h3 [|h4 r2]]]]; try discriminate.
      destruct (int16 h1 h2 h3 h4) as [uni|] eqn:Hu; [|discriminate].
      destruct (is_high_surrogate uni) eqn:Hh; cbn [andb].
      * destruct (startswith [92; 117] r2) eqn:Hs.
        -- destruct (startswith_bu _ Hs) as [t' Ht']. subst r2.
           destruct t' as [|k1 [|k2 [|k3 [|k4 r3]]]]; try discriminate.
           destruct (int16 k1 k2 k3 k4) as [uni2|] eqn:Hu2; [|discriminate].
           back. cbn [andb].
           destruct (is_low_surrogate uni2) eqn:Hl; intros H;
             apply push_char_inv in H as (str' & H' & ->).
           ++ do 3 eexists. split; [|split; [exact H'|reflexivity]].
              apply step_pair; assumption.
           ++ do 3 eexists. split; [|split; [exact H'|reflexivity]].
              apply step_lone; [assumption|]. intros _ _.
              do 6 eexists. split; [reflexivity|]. split; eassumption.
        -- back. intros H. apply push_char_inv in H as (str' & H' & ->).
           do 3 eexists. split; [|split; [exact H'|reflexivity]].
           apply step_lone; [assumption|]. intros _ Hs'. congruence.
      * back. intros H. apply push_char_inv in H as (str' & H' & ->).
        do 3 eexists. split; [|split; [exact H'|reflexivity]].
        apply step_lone; [assumption|]. intros Hf; congruence.
    + destruct (BACKSLASH esc) as [char|] eqn:Hb; [|discriminate].
      back. intros H. apply push_char_inv in H as (str' & H' & ->).
      do 3 eexists. split; [|split; [exact H'|reflexivity]].
      apply step_short; assumption.
  - destruct (Z.ltb_spec c 32); [discriminate|].
    back. intros H. apply push_char_inv in H as (str' & H' & ->).
    do 3 eexists. split; [|split; [exact H'|reflexivity]].
    apply step_plain; assumption.
Qed.

Lemma scan_step_suffix s c t : scan_step s c t -> suffix t s /\ (length t < length s)%nat.
Proof.
  destruct 1; (split; [|cbn [length]; lia]).
  - exists [c]. reflexivity.
  - exists [92; e]. reflexivity.
  - exists [92; 117; h1; h2; h3; h4]. reflexivity.
  - exists [92; 117; h1; h2; h3; h4; 92; 117; k1; k2; k3; k4]. reflexivity.
Qed.

Lemma scanstring_suffix s : forall str rest,
  py_scanstring s = Some (str, rest) -> suffix rest s /\ (length rest < length s)%nat.
Proof.
  induction s as [s IH] using (induction_ltof1 _ (@length Z)). unfold ltof in IH.
  intros str rest H.
  destruct (scanstring_inv _ _ _ H) as [(t & -> & _ & ->)|(c & t & str' & Hstep & Ht & _)].
  - split; [exists [34]; reflexivity | cbn [length]; lia].
  - destruct (scan_step_suffix _ _ _ Hstep) as [Hsuf Hlen].
    destruct (IH t Hlen _ _ Ht) as [Hsuf' Hlen'].
    split; [etransitivity; eassumption | lia].
Qed.

Lemma hex_value_range c d : hex_value c = Some d -> 0 <= d < 16.
Proof.
  unfold hex_value.
  repeat match goal with
         | |- context [(?a <=? ?b) && (?x <=? ?y)] =>
           destruct (Z.leb_spec a b); destruct (Z.leb_spec x y); cbn [andb]
         end; intros [= <-]; lia.
Qed.

Lemma int16_range h1 h2 h3 h4 u : int16 h1 h2 h3 h4 = Some u -> 0 <= u < 65536.
Proof.
  unfold int16.
  destruct (hex_value h1) as [a|] eqn:Ha; [|discriminate].
  destruct (hex_value h2) as [b|] eqn:Hb; [|discriminate].
  destruct (hex_value h3) as [c|] eqn:Hc; [|discriminate].
  destruct (hex_value h4) as [d|] eqn:Hd; [|discriminate].
  apply hex_value_range in Ha, Hb, Hc, Hd. intros [= <-]. lia.
Qed.

Lemma BACKSLASH_range e c : BACKSLASH e = Some c -> 0 <= c < 128.
Proof.
  unfold BACKSLASH.
  repeat (match goal with |- context [Z.eqb e ?k] => destruct (Z.eqb e k) end;
          [intros [= <-]; lia|]).
  discriminate.
Qed.

Lemma surrogate_bounds_high c : is_high_surrogate c = true -> 0xd800 <= c <= 0xdbff.
Proof.
  unfold is_high_surrogate. intros H. apply andb_true_iff in H as [H1 H2].
  apply Z.leb_le in H1, H2. lia.
Qed.

Lemma surrogate_bounds_low c : is_low_surrogate c = true -> 0xdc00 <= c <= 0xdfff.
Proof.
  unfold is_low_surrogate. intros H. apply andb_true_iff in H as [H1 H2].
  apply Z.leb_le in H1, H2. lia.
Qed.

Lemma join_surrogates_range uni uni2 :
  is_high_surrogate uni = true -> is_low_surrogate uni2 = true ->
  0x10000 <= join_surrogates uni uni2 <= 0x10ffff.
Proof.
  intros Hh Hl. apply surrogate_bounds_high in Hh. apply surrogate_bounds_low in Hl.
  unfold join_surrogates. rewrite lor_shiftl_add by lia.
  change (2 ^ 10) with 1024. lia.
Qed.

Lemma scalar_not_low c : scalar c -> is_low_surrogate c = false.
Proof.
  intros [_ H]. unfold is_surrogate, is_low_surrogate in *.
  destruct (Z.leb_spec 0xd800 c); destruct (Z.leb_spec c 0xdfff);
    destruct (Z.leb_spec 0xdc00 c); cbn [andb] in *; try reflexivity; try discriminate; lia.
Qed.

Lemma scalar_not_high c : scalar c -> is_high_surrogate c = false.
Proof.
  intros [_ H]. unfold is_surrogate, is_high_surrogate in *.
  destruct (Z.leb_spec 0xd800 c); destruct (Z.leb_spec c 0xdfff);
    destruct (Z.leb_spec c 0xdbff); cbn [andb] in *; try reflexivity; try discriminate; lia.
Qed.

Lemma not_surrogate_small c : 0 <= c < 0xd800 ->
  is_low_surrogate c = false /\ is_high_surrogate c = false.
Proof. intros H. unfold is_low_surrogate, is_high_surrogate. zdec. split; reflexivity. Qed.

Lemma not_surrogate_large c : 0x10000 <= c ->
  is_low_surrogate c = false /\ is_high_surrogate c = false.
Proof.
  intros H. unfold is_low_surrogate, is_high_surrogate. zdec. split; reflexivity.
Qed.

(** The character a round appends: a code point; a low surrogate only
    from its own escape; after a high surrogate no escaped low one. *)
Lemma scan_step_char s c t :
  Forall scalar s -> scan_step s c t ->
  code_point c
  /\ (is_low_surrogate c = true ->
      exists h1 h2 h3 h4, s = 92 :: 117 :: h1 :: h2 :: h3 :: h4 :: t
                          /\ int16 h1 h2 h3 h4 = Some c)
  /\ (is_high_surrogate c = true -> no_low_escape t).
Proof.
  intros Hs Hstep. destruct Hstep as [c t H34 H92 H32|e c t Hb|h1 h2 h3 h4 uni t Hu Hn|
                                      h1 h2 h3 h4 k1 k2 k3 k4 uni uni2 t Hu Hh Hu2 Hl].
  - inversion Hs as [|? ? Hc _]; subst.
    split; [destruct Hc; exact H|]. split; intros Hx.
    + rewrite (scalar_not_low c Hc) in Hx. discriminate.
    + rewrite (scalar_not_high c Hc) in Hx. discriminate.
  - apply BACKSLASH_range in Hb.
    destruct (not_surrogate_small c ltac:(lia)) as [Hl Hh].
    split; [unfold code_point; lia|]. split; intros Hx; congruence.
  - pose proof (int16_range _ _ _ _ _ Hu) as Hr.
    split; [unfold code_point; lia|]. split; [|exact Hn].
    intros _. do 4 eexists. split; [reflexivity|exact Hu].
  - pose proof (join_surrogates_range _ _ Hh Hl) as Hr.
    destruct (not_surrogate_large _ (proj1 Hr)) as [Hl' Hh'].
    split; [unfold code_point; lia|]. split; intros Hx; congruence.
Qed.

(** A string scanned from Unicode text is well formed. *)
Lemma scanstring_wf s : forall str rest,
  Forall scalar s -> py_scanstring s = Some (str, rest) -> wf_str str.
Proof.
  induction s as [s IH] using (induction_ltof1 _ (@length Z)). unfold ltof in IH.
  intros str rest Hs H.
  destruct (scanstring_inv _ _ _ H) as [(t & -> & -> & ->)|(c & t & str' & Hstep & Ht & ->)].
  - split; [constructor|reflexivity].
  - destruct (scan_step_suffix _ _ _ Hstep) as [[k Hk] Hlen].
    assert (Hts : Forall scalar t) by (rewrite Hk in Hs; apply Forall_app in Hs; tauto).
    destruct (IH t Hlen _ _ Hts Ht) as [Hcp Hnp].
    destruct (scan_step_char _ _ _ Hs Hstep) as (Hc & _ & Hhigh).
    split; [constructor; assumption|].
    cbn [no_pair]. rewrite Hnp, andb_true_r.
    destruct str' as [|d str'']; [reflexivity|].
    destruct (is_high_surrogate c) eqn:Hh; [|reflexivity].
    destruct (is_low_surrogate d) eqn:Hl; [|reflexivity]. exfalso.
    destruct (scanstring_inv _ _ _ Ht) as [(t' & _ & Hnil & _)|(d' & t' & s' & Hstep' & _ & Hd)];
      [discriminate|].
    injection Hd as <- _.
    destruct (scan_step_char _ _ _ Hts Hstep') as (_ & Hlow & _).
    destruct (Hlow Hl) as (h1 & h2 & h3 & h4 & Heq & Hu).
    destruct (Hhigh eq_refl) as (k1 & k2 & k3 & k4 & r3 & u2 & Heq' & Hu2 & Hl2).
    { rewrite Heq. reflexivity. }
    rewrite Heq in Heq'. injection Heq' as -> -> -> -> _. congruence.
Qed.

(** *** What the decoder returns *)

Lemma skip_ws_suffix s : suffix (skip_ws s) s.
Proof.
  induction s as [|c s IH]; [reflexivity|]. cbn [skip_ws].
  destruct (is_ws c); [apply suffix_cons_r, IH | reflexivity].
Qed.

Lemma drop_suffix {A : Type} n (s : list A) : suffix (drop n s) s.
Proof. exists (take n s). symmetry. apply take_drop. Qed.

Lemma match_number_suffix s i f e r : match_number s = Some (i, f, e, r) -> suffix r s.
Proof.
  intros H. apply match_number_split in H. exists (i ++ f ++ e).
  rewrite <- !app_assoc. exact H.
Qed.

Section Decoded.
Context {F : PyFloat}.

Lemma dict_setitem_key_in k (v : value) d x :
  x ∈ map fst (dict_setitem k v d) -> x = k \/ x ∈ map fst d.
Proof.
  induction d as [|[k' v'] d IH]; cbn [dict_setitem map fst].
  - intros H. apply list_elem_of_singleton in H. left; exact H.
  - destruct (bool_decide (k = k')); cbn [map fst]; intros H.
    + right. exact H.
    + apply elem_of_cons in H as [->|H]; [right; left|].
      destruct (IH H) as [->|Hx]; [left; reflexivity | right; right; exact Hx].
Qed.

Lemma dict_setitem_nodup k (v : value) d :
  NoDup (map fst d) -> NoDup (map fst (dict_setitem k v d)).
Proof.
  induction d as [|[k' v'] d IH]; cbn [dict_setitem map fst]; intros H.
  - apply NoDup_singleton.
  - destruct (bool_decide (k = k')) eqn:E; cbn [map fst]; [exact H|].
    apply NoDup_cons in H as [Hk' Hd]. apply NoDup_cons. split; [|apply IH, Hd].
    intros Hin. apply dict_setitem_key_in in Hin as [->|Hin]; [|contradiction].
    apply bool_decide_eq_false in E. congruence.
Qed.

Lemma dict_setitem_Forall (R : pystr * value -> Prop) k v d :
  Forall R d -> R (k, v) -> Forall R (dict_setitem k v d).
Proof.
  intros Hd Hkv. induction Hd as [|[k' v'] d Hx Hd IH]; cbn [dict_setitem].
  - constructor; [exact Hkv|constructor].
  - destruct (bool_decide (k = k')) eqn:E.
    + apply bool_decide_eq_true in E. subst k'. constructor; assumption.
    + constructor; assumption.
Qed.

Lemma dict_of_pairs_wf (R : pystr * value -> Prop) pairs :
  Forall R pairs ->
  NoDup (map fst (dict_of_pairs pairs)) /\ Forall R (dict_of_pairs pairs).
Proof.
  unfold dict_of_pairs. intros H.
  assert (NoDup (map fst (@nil (pystr * value))) /\ Forall R []) as Hacc
    by (split; constructor).
  revert Hacc. generalize (@nil (pystr * value)) as acc.
  induction H as [|[k v] pairs Hkv _ IH]; intros acc [Hn Hf]; cbn [fold_left fst snd].
  - split; assumption.
  - apply IH. split; [apply dict_setitem_nodup, Hn | apply dict_setitem_Forall; assumption].
Qed.

Variable Q : Z -> Prop.
Variable P : pystr -> Prop.
Hypothesis scanstring_P : forall s str rest,
  Forall Q s -> py_scanstring s = Some (str, rest) -> P str.

Lemma Forall_suffix (r s : pystr) : suffix r s -> Forall Q s -> Forall Q r.
Proof. intros [k ->] H. apply Forall_app in H. tauto. Qed.

Lemma array_items_ok scan n : scan_ok Q P scan -> forall s acc v rest,
  array_items scan n s acc = Some (v, rest) ->
  suffix rest s /\ (Forall Q s -> Forall (well_formed P) acc -> well_formed P v).
Proof.
  intros Hscan. induction n as [|n IH]; intros s acc v rest; [discriminate|].
  cbn [array_items].
  destruct (scan s) as [[x r]|] eqn:Hx; [|discriminate].
  destruct (Hscan _ _ _ Hx) as [Hsuf Hwf].
  pose proof (skip_ws_suffix r) as Hws.
  destruct (skip_ws r) as [|c r'] eqn:Hr; [discriminate|].
  assert (suffix r' s) as Hr's.
  { etransitivity; [|exact Hsuf]. etransitivity; [|exact Hws]. apply suffix_cons_r. reflexivity. }
  destruct (c =? 93).
  - intros [= <- <-]. split; [exact Hr's|].
    intros Hs Hacc. constructor. apply Forall_app. split; [exact Hacc|].
    constructor; [apply Hwf, Hs|constructor].
  - destruct (c =? 44); [|discriminate]. intros H.
    destruct (IH _ _ _ _ H) as [Hsuf' Hwf'].
    assert (suffix (skip_ws r') s) as Hs'.
    { etransitivity; [apply skip_ws_suffix | exact Hr's]. }
    split; [etransitivity; eassumption|].
    intros Hs Hacc. apply Hwf'; [eapply Forall_suffix; eassumption|].
    apply Forall_app. split; [exact Hacc|]. constructor; [apply Hwf, Hs|constructor].
Qed.

Lemma JSONArray_ok scan : scan_ok Q P scan -> scan_ok Q P (JSONArray scan).
Proof.
  intros Hscan s v r. unfold JSONArray.
  pose proof (skip_ws_suffix s) as Hws.
  destruct (startswith [93] (skip_ws s)).
  - intros [= <- <-]. split; [etransitivity; [apply drop_suffix|exact Hws]|].
    intros _. constructor. constructor.
  - intros H. destruct (array_items_ok scan _ Hscan _ _ _ _ H) as [Hsuf Hwf].
    split; [etransitivity; eassumption|].
    intros Hs. apply Hwf; [eapply Forall_suffix; eassumption | constructor].
Qed.

Lemma object_pairs_ok scan n : scan_ok Q P scan -> forall s acc v rest,
  object_pairs scan n s acc = Some (v, rest) ->
  suffix rest s /\ (Forall Q s -> Forall (pair_ok P) acc -> well_formed P v).
Proof.
  intros Hscan. induction n as [|n IH]; intros s acc v rest; [discriminate|].
  cbn [object_pairs].
  destruct (py_scanstring s) as [[key r]|] eqn:Hk; [|discriminate].
  destruct (scanstring_suffix _ _ _ Hk) as [Hrs _].
  pose proof (skip_ws_suffix r) as Hws.
  destruct (skip_ws r) as [|c r1] eqn:Hr; [discriminate|].
  destruct (c =? 58); [|discriminate].
  assert (suffix r1 s) as Hr1.
  { etransitivity; [|exact Hrs]. etransitivity; [|exact Hws]. apply suffix_cons_r. reflexivity. }
  destruct (scan (skip_ws r1)) as [[x r2]|] eqn:Hx; [|discriminate].
  destruct (Hscan _ _ _ Hx) as [Hsuf Hwf].
  assert (suffix r2 s) as Hr2.
  { etransitivity; [exact Hsuf|]. etransitivity; [apply skip_ws_suffix | exact Hr1]. }
  pose proof (skip_ws_suffix r2) as Hws2.
  destruct (skip_ws r2) as [|c2 r3] eqn:Hr2'; [discriminate|].
  assert (suffix r3 s) as Hr3.
  { etransitivity; [|exact Hr2]. etransitivity; [|exact Hws2]. apply suffix_cons_r. reflexivity. }
  assert (Forall Q s -> pair_ok P (key, x)) as Hpair.
  { intros Hs. split; [eapply scanstring_P; eassumption|].
    apply Hwf. eapply Forall_suffix; [|exact Hs].
    etransitivity; [apply skip_ws_suffix | exact Hr1]. }
  destruct (c2 =? 125).
  - intros [= <- <-]. split; [exact Hr3|].
    intros Hs Hacc.
    destruct (dict_of_pairs_wf (pair_ok P) (acc ++ [(key, x)])) as [Hn Hf].
    { apply Forall_app. split; [exact Hacc|]. constructor; [apply Hpair, Hs|constructor]. }
    constructor; assumption.
  - destruct (c2 =? 44); [|discriminate].
    pose proof (skip_ws_suffix r3) as Hws3.
    destruct (skip_ws r3) as [|c3 r4] eqn:Hr3'; [discriminate|].
    destruct (c3 =? 34); [|discriminate]. intros H.
    destruct (IH _ _ _ _ H) as [Hsuf' Hwf'].
    assert (suffix r4 s) as Hr4.
    { etransitivity; [|exact Hr3]. etransitivity; [|exact Hws3]. apply suffix_cons_r. reflexivity. }
    split; [etransitivity; eassumption|].
    intros Hs Hacc. apply Hwf'; [eapply Forall_suffix; eassumption|].
    apply Forall_app. split; [exact Hacc|]. constructor; [apply Hpair, Hs|constructor].
Qed.

Lemma JSONObject_ok scan : scan_ok Q P scan -> scan_ok Q P (JSONObject scan).
Proof.
  intros Hscan s v r. unfold JSONObject.
  pose proof (skip_ws_suffix s) as Hws.
  destruct (skip_ws s) as [|c r0] eqn:Hs0; [discriminate|].
  assert (suffix r0 s) as Hr0.
  { etransitivity; [|exact Hws]. apply suffix_cons_r. reflexivity. }
  destruct (c =? 125).
  - intros [= <- <-]. split; [exact Hr0|]. intros _. constructor; constructor.
  - destruct (c =? 34); [|discriminate]. intros H.
    destruct (object_pairs_ok scan _ Hscan _ _ _ _ H) as [Hsuf Hwf].
    split; [etransitivity; eassumption|].
    intros Hs. apply Hwf; [eapply Forall_suffix; eassumption | constructor].
Qed.

Lemma scan_once_ok fuel : scan_ok Q P (scan_once fuel).
Proof.
  induction fuel as [|fuel IH]; intros s v r; [discriminate|].
  cbn [scan_once]. destruct s as [|nextchar t]; [discriminate|].
  assert (forall x, suffix x t -> suffix x (nextchar :: t)) as Hcons
    by (intros x; apply suffix_cons_r).
  assert (Forall Q (nextchar :: t) -> Forall Q t) as Htail
    by (intros H; inversion H; assumption).
  destruct (nextchar =? 34).
  { destruct (py_scanstring t) as [[str rest]|] eqn:Hstr; [|discriminate].
    intros [= <- <-]. destruct (scanstring_suffix _ _ _ Hstr) as [Hsuf _].
    split; [apply Hcons, Hsuf|]. intros Hs. constructor.
    eapply scanstring_P; [apply Htail, Hs | exact Hstr]. }
  destruct (nextchar =? 123).
  { intros H. destruct (JSONObject_ok _ IH _ _ _ H) as [Hsuf Hwf].
    split; [apply Hcons, Hsuf | intros Hs; apply Hwf, Htail, Hs]. }
  destruct (nextchar =? 91).
  { intros H. destruct (JSONArray_ok _ IH _ _ _ H) as [Hsuf Hwf].
    split; [apply Hcons, Hsuf | intros Hs; apply Hwf, Htail, Hs]. }
  destruct (startswith (lit "null") (nextchar :: t)).
  { intros [= <- <-]. split; [first [apply drop_suffix | apply Hcons, drop_suffix] | intros _; constructor]. }
  destruct (startswith (lit "true") (nextchar :: t)).
  { intros [= <- <-]. split; [first [apply drop_suffix | apply Hcons, drop_suffix] | intros _; constructor]. }
  destruct (startswith (lit "false") (nextchar :: t)).
  { intros [= <- <-]. split; [first [apply drop_suffix | apply Hcons, drop_suffix] | intros _; constructor]. }
  destruct (match_number (nextchar :: t)) as [[[[i f] e] rest]|] eqn:Hm.
  { pose proof (match_number_suffix _ _ _ _ _ Hm) as Hsuf.
    destruct (nonempty f || nonempty e) eqn:Hfe; intros [= <- <-];
      (split; [exact Hsuf | intros _]).
    - constructor. apply decoded_literal.
      eapply match_number_float_literal; eassumption.
    - constructor. }
  destruct (startswith (lit "NaN") (nextchar :: t)).
  { intros [= <- <-]. split; [first [apply drop_suffix | apply Hcons, drop_suffix] | intros _; constructor; constructor]. }
  destruct (startswith (lit "Infinity") (nextchar :: t)).
  { intros [= <- <-]. split; [first [apply drop_suffix | apply Hcons, drop_suffix] | intros _; constructor; constructor]. }
  destruct (startswith (lit "-Infinity") (nextchar :: t)).
  { intros [= <- <-]. split; [first [apply drop_suffix | apply Hcons, drop_suffix] | intros _; constructor; constructor]. }
  discriminate.
Qed.

Lemma json_loads_ok s v :
  json_loads s = Some v -> Forall Q s -> well_formed P v.
Proof.
  unfold json_loads, decode. destruct (startswith [0xfeff] s); [discriminate|].
  destruct (scan_once (S (length s)) (skip_ws s)) as [[obj rest]|] eqn:H; [|discriminate].
  destruct (skip_ws rest); [|discriminate]. intros [= <-] Hs.
  destruct (scan_once_ok _ _ _ _ H) as [_ Hwf].
  apply Hwf. eapply Forall_suffix; [apply skip_ws_suffix | exact Hs].
Qed.

End Decoded.

(** ** The fuel and the loop counters are never exhausted *)

Lemma match_integer_nonempty s m r : match_integer s = Some (m, r) -> m <> [].
Proof.
  destruct s as [|c s]; [discriminate|]. cbn [match_integer].
  destruct (c =? 45).
  - destruct (match_digits1 s) as [[d r']|]; [|discriminate].
    intros [= <- <-]. discriminate.
  - intros H. destruct (match_digits1_head _ _ _ _ H) as [m' ->]. discriminate.
Qed.

Lemma match_number_shorter s i f e r :
  match_number s = Some (i, f, e, r) -> (length r < length s)%nat.
Proof.
  intros H. pose proof (match_number_split _ _ _ _ _ H) as Hs.
  unfold match_number in H.
  destruct (match_integer s) as [[i' r1]|] eqn:Hi; [|discriminate].
  apply match_integer_nonempty in Hi.
  destruct (match_frac r1) as [f' r2]. destruct (match_exp r2) as [e' r3].
  injection H as <- <- <- <-. rewrite Hs, !length_app.
  destruct i'; [congruence|]. cbn [length]. lia.
Qed.

Section Fuel.
Context {F : PyFloat}.

Lemma suffix_shorter (r s : pystr) c : suffix r s -> (length r < length (c :: s))%nat.
Proof. intros H. apply suffix_length in H. cbn [length]. lia. Qed.

(** The scanner consumes at least one character. *)
Lemma scan_once_shorter fuel s v r :
  scan_once fuel s = Some (v, r) -> (length r < length s)%nat.
Proof.
  assert (Hok : forall n, scan_ok (fun _ => True) (fun _ => True) (scan_once n)).
  { intros n. apply scan_once_ok. intros; exact I. }
  destruct fuel as [|fuel]; [discriminate|]. cbn [scan_once].
  destruct s as [|nextchar t]; [discriminate|].
  destruct (nextchar =? 34).
  { destruct (py_scanstring t) as [[str rest]|] eqn:Hstr; [|discriminate].
    intros [= <- <-]. apply suffix_shorter, (scanstring_suffix _ _ _ Hstr). }
  destruct (nextchar =? 123).
  { intros H. apply suffix_shorter.
    apply (JSONObject_ok _ _ (fun _ _ _ _ _ => I) _ (Hok fuel) _ _ _ H). }
  destruct (nextchar =? 91).
  { intros H. apply suffix_shorter.
    apply (JSONArray_ok _ _ _ (Hok fuel) _ _ _ H). }
  destruct (startswith (lit "null") (nextchar :: t));
    [intros [= <- <-]; apply suffix_shorter, drop_suffix|].
  destruct (startswith (lit "true") (nextchar :: t));
    [intros [= <- <-]; apply suffix_shorter, drop_suffix|].
  destruct (startswith (lit "false") (nextchar :: t));
    [intros [= <- <-]; apply suffix_shorter, drop_suffix|].
  destruct (match_number (nextchar :: t)) as [[[[i f] e] rest]|] eqn:Hm.
  { apply match_number_shorter in Hm.
    destruct (nonempty f || nonempty e); intros [= <- <-]; exact Hm. }
  destruct (startswith (lit "NaN") (nextchar :: t));
    [intros [= <- <-]; apply suffix_shorter, drop_suffix|].
  destruct (startswith (lit "Infinity") (nextchar :: t));
    [intros [= <- <-]; apply suffix_shorter, drop_suffix|].
  destruct (startswith (lit "-Infinity") (nextchar :: t));
    [intros [= <- <-]; apply suffix_shorter, drop_suffix|].
  discriminate.
Qed.

Section Counters.
Variable scan : pystr -> option (value * pystr).
Hypothesis scan_shorter : forall s v r,
  scan s = Some (v, r) -> (length r < length s)%nat.

Lemma skip_ws_length s : (length (skip_ws s) <= length s)%nat.
Proof. apply suffix_length, skip_ws_suffix. Qed.

(** A counter of at least the length of the text is as good as any. *)
Lemma array_items_counter c1 : forall c2 s acc,
  (length s <= c1)%nat -> (length s <= c2)%nat ->
  array_items scan c1 s acc = array_items scan c2 s acc.
Proof.
  induction c1 as [|c1 IH]; intros c2 s acc H1 H2.
  - destruct s; [|cbn in H1; lia].
    destruct c2 as [|c2]; [reflexivity|]. cbn [array_items].
    destruct (scan []) as [[v r]|] eqn:Hs; [|reflexivity].
    apply scan_shorter in Hs. cbn in Hs. lia.
  - cbn [array_items]. destruct (scan s) as [[v r]|] eqn:Hs.
    + pose proof (scan_shorter _ _ _ Hs) as Hlen.
      destruct c2 as [|c2]; [lia|]. cbn [array_items]. rewrite Hs.
      pose proof (skip_ws_length r) as Hws.
      destruct (skip_ws r) as [|c r'] eqn:Hr; [reflexivity|].
      destruct (c =? 93); [reflexivity|]. destruct (c =? 44); [|reflexivity].
      pose proof (skip_ws_length r') as Hws'. cbn [length] in Hws.
      apply IH; lia.
    + destruct c2 as [|c2]; [reflexivity|]. cbn [array_items]. rewrite Hs. reflexivity.
Qed.

Lemma object_pairs_counter c1 : forall c2 s acc,
  (length s <= c1)%nat -> (length s <= c2)%nat ->
  object_pairs scan c1 s acc = object_pairs scan c2 s acc.
Proof.
  induction c1 as [|c1 IH]; intros c2 s acc H1 H2.
  - destruct s; [|cbn in H1; lia].
    destruct c2 as [|c2]; reflexivity.
  - destruct c2 as [|c2].
    + destruct s; [|cbn in H2; lia]. reflexivity.
    + cbn [object_pairs].
      destruct (py_scanstring s) as [[key r]|] eqn:Hk; [|reflexivity].
      destruct (scanstring_suffix _ _ _ Hk) as [_ Hlen].
      pose proof (skip_ws_length r) as Hws.
      destruct (skip_ws r) as [|c r1] eqn:Hr; [reflexivity|].
      destruct (c =? 58); [|reflexivity].
      pose proof (skip_ws_length r1) as Hws1. cbn [length] in Hws.
      destruct (scan (skip_ws r1)) as [[x r2]|] eqn:Hx; [|reflexivity].
      pose proof (scan_shorter _ _ _ Hx) as Hlen2.
      pose proof (skip_ws_length r2) as Hws2.
      destruct (skip_ws r2) as [|c2' r3] eqn:Hr2; [reflexivity|].
      destruct (c2' =? 125); [reflexivity|]. destruct (c2' =? 44); [|reflexivity].
      pose proof (skip_ws_length r3) as Hws3. cbn [length] in Hws2.
      destruct (skip_ws r3) as [|c3 r4] eqn:Hr3; [reflexivity|].
      destruct (c3 =? 34); [|reflexivity]. cbn [length] in Hws3.
      apply IH; lia.
Qed.

End Counters.

Section Agreement.
Variables scan1 scan2 : pystr -> option (value * pystr).
Variable k : nat.
Hypothesis scan1_shorter : forall s v r,
  scan1 s = Some (v, r) -> (length r < length s)%nat.
Hypothesis agree : forall s x,
  (length s <= k)%nat -> scan1 s = Some x -> scan2 s = Some x.

Lemma array_items_agree c : forall s acc y,
  (length s <= k)%nat ->
  array_items scan1 c s acc = Some y -> array_items scan2 c s acc = Some y.
Proof.
  induction c as [|c IH]; intros s acc y Hk; [discriminate|].
  cbn [array_items]. destruct (scan1 s) as [[v r]|] eqn:Hs; [|discriminate].
  rewrite (agree _ _ Hk Hs). pose proof (scan1_shorter _ _ _ Hs) as Hlen.
  pose proof (skip_ws_length r) as Hws.
  destruct (skip_ws r) as [|ch r'] eqn:Hr; [discriminate|].
  destruct (ch =? 93); [exact id|]. destruct (ch =? 44); [|discriminate].
  pose proof (skip_ws_length r') as Hws'. cbn [length] in Hws.
  apply IH. lia.
Qed.

Lemma JSONArray_agree s y :
  (length s <= k)%nat -> JSONArray scan1 s = Some y -> JSONArray scan2 s = Some y.
Proof.
  intros Hk. unfold JSONArray. destruct (startswith [93] (skip_ws s)); [exact id|].
  apply array_items_agree. pose proof (skip_ws_length s). lia.
Qed.

Lemma object_pairs_agree c : forall s acc y,
  (length s <= k)%nat ->
  object_pairs scan1 c s acc = Some y -> object_pairs scan2 c s acc = Some y.
Proof.
  induction c as [|c IH]; intros s acc y Hk; [discriminate|].
  cbn [object_pairs].
  destruct (py_scanstring s) as [[key r]|] eqn:Hkey; [|discriminate].
  destruct (scanstring_suffix _ _ _ Hkey) as [_ Hlen].
  pose proof (skip_ws_length r) as Hws.
  destruct (skip_ws r) as [|ch r1] eqn:Hr; [discriminate|].
  destruct (ch =? 58); [|discriminate].
  pose proof (skip_ws_length r1) as Hws1. cbn [length] in Hws.
  destruct (scan1 (skip_ws r1)) as [[x r2]|] eqn:Hx; [|discriminate].
  rewrite (agree (skip_ws r1) _ ltac:(lia) Hx).
  pose proof (scan1_shorter _ _ _ Hx) as Hlen2.
  pose proof (skip_ws_length r2) as Hws2.
  destruct (skip_ws r2) as [|c2 r3] eqn:Hr2; [discriminate|].
  destruct (c2 =? 125); [exact id|]. destruct (c2 =? 44); [|discriminate].
  pose proof (skip_ws_length r3) as Hws3. cbn [length] in Hws2.
  destruct (skip_ws r3) as [|c3 r4] eqn:Hr3; [discriminate|].
  destruct (c3 =? 34); [|discriminate]. cbn [length] in Hws3.
  apply IH. lia.
Qed.

Lemma JSONObject_agree s y :
  (length s <= k)%nat -> JSONObject scan1 s = Some y -> JSONObject scan2 s = Some y.
Proof.
  intros Hk. unfold JSONObject. pose proof (skip_ws_length s) as Hws.
  destruct (skip_ws s) as [|c r]; [discriminate|].
  destruct (c =? 125); [exact id|]. destruct (c =? 34); [|discriminate].
  cbn [length] in Hws. apply object_pairs_agree. lia.
Qed.

End Agreement.

(** A value found with some fuel is found with any fuel above the length
    of the text. *)
Lemma scan_once_enough n : forall s x m,
  scan_once n s = Some x -> (length s < m)%nat -> scan_once m s = Some x.
Proof.
  induction n as [|n IH]; intros s x m; [discriminate|].
  destruct m as [|m]; [lia|]. cbn [scan_once].
  destruct s as [|nextchar t]; [discriminate|]. cbn [length]. intros H Hm.
  destruct (nextchar =? 34); [exact H|].
  destruct (nextchar =? 123).
  { apply (JSONObject_agree (scan_once n) (scan_once m) (length t)); auto.
    - apply scan_once_shorter.
    - intros s' x' Hs' Hx'. apply (IH _ _ _ Hx'). lia. }
  destruct (nextchar =? 91).
  { apply (JSONArray_agree (scan_once n) (scan_once m) (length t)); auto.
    - apply scan_once_shorter.
    - intros s' x' Hs' Hx'. apply (IH _ _ _ Hx'). lia. }
  exact H.
Qed.

(** [decode] finds every value that the scanner finds with any fuel:
    [None] is an error of the decoder, never a lack of fuel. *)
Lemma decode_complete n s obj rest :
  scan_once n (skip_ws s) = Some (obj, rest) -> skip_ws rest = [] ->
  decode s = Some obj.
Proof.
  intros H Hrest. unfold decode.
  rewrite (scan_once_enough n _ _ (S (length s)) H), Hrest; [reflexivity|].
  pose proof (skip_ws_length s). lia.
Qed.

(** The loops of [JSONArray] and [JSONObject] give the same result with
    any counter of at least the length of the text. *)
Lemma JSONArray_counter fuel c s :
  (length (skip_ws s) <= c)%nat ->
  JSONArray (scan_once fuel) s =
  if startswith [93] (skip_ws s) then Some (VList [], drop 1 (skip_ws s))
  else array_items (scan_once fuel) c (skip_ws s) [].
Proof.
  intros Hc. unfold JSONArray. destruct (startswith [93] (skip_ws s)); [reflexivity|].
  apply array_items_counter; [apply scan_once_shorter | lia | exact Hc].
Qed.

End Fuel.

(** ** The [utf-8] codec on ASCII text *)

Lemma utf8_encode_ascii t : Forall is_ascii t -> utf8_encode t = Some t.
Proof.
  induction 1 as [|c t Hc _ IH]; [reflexivity|].
  cbn [utf8_encode]. unfold utf8_encode_char. unfold is_ascii in Hc. zdec.
  rewrite IH. reflexivity.
Qed.

Lemma utf8_decode_ascii t : Forall is_ascii t -> utf8_decode t = Some t.
Proof.
  induction 1 as [|c t Hc _ IH]; [reflexivity|].
  cbn [utf8_decode]. unfold is_ascii in Hc. zdec. rewrite IH. reflexivity.
Qed.

(** ** The codec, in summary *)

Section CodecSummary.
Context {F : PyFloat}.

(** Whatever the text, a decoded value has decoded floats and distinct
    keys. *)
Lemma json_loads_decoded s v :
  json_loads s = Some v -> well_formed (fun _ => True) v.
Proof.
  intros H. apply (json_loads_ok (fun _ => True) (fun _ => True)) with s.
  - intros; exact I.
  - exact H.
  - apply Forall_forall. intros; exact I.
Qed.

(** From Unicode text, the strings of a decoded value are well formed too. *)
Lemma json_loads_well_formed s v :
  Forall scalar s -> json_loads s = Some v -> well_formed wf_str v.
Proof. intros Hs H. exact (json_loads_ok scalar wf_str scanstring_wf s v H Hs). Qed.

(** Fuel aside: whatever the scanner finds with any fuel, [json.loads]
    returns. *)
Lemma json_loads_complete n s obj rest :
  startswith [0xfeff] s = false ->
  scan_once n (skip_ws s) = Some (obj, rest) -> skip_ws rest = [] ->
  json_loads s = Some obj.
Proof.
  intros Hbom H Hrest. unfold json_loads. rewrite Hbom.
  eapply decode_complete; eassumption.
Qed.

Context {L : PyFloatLaws F}.

Lemma json_dumps_ascii P v indent :
  well_formed P v -> Forall is_ascii (json_dumps v indent).
Proof. intros Hv. unfold json_dumps. eapply iterencode_ascii, Hv. Qed.

Lemma json_dumps_encodable s v indent :
  json_loads s = Some v ->
  utf8_encode (json_dumps v indent) = Some (json_dumps v indent).
Proof.
  intros H. apply utf8_encode_ascii.
  eapply json_dumps_ascii, json_loads_decoded, H.
Qed.

End CodecSummary.

(** Why the text must be Unicode text: a raw low surrogate after an
    escaped high one gives a string of two surrogates, which [json.dumps]
    writes like the one character they would encode. *)
Lemma raw_surrogate_is_joined :
  let body := [34; 92; 117; 100; 56; 51; 100; 0xde00; 34] in
  json_loads (F := LiteralFloat) body = Some (VStr [0xd83d; 0xde00])
  /\ json_loads (F := LiteralFloat) (json_dumps (F := LiteralFloat) (VStr [0xd83d; 0xde00]) 2)
     = Some (VStr [0x1f600]).
Proof. split; vm_compute; reflexivity. Qed.

(** ** One round of the loop, and a whole run *)

Section Runs.
Context {F : PyFloat}.

Lemma loop_body_ran filename w :
  ran filename w (fst (loop_body filename w)) (snd (loop_body filename w)).
Proof.
  unfold loop_body, mbind, M_bind, requests_get, loads.
  destruct (remote w (url_of filename)) as [r|e] eqn:Hr; cbn [fst snd].
  - destruct (json_loads (text r)) as [obj|] eqn:Hobj; cbn [fst snd].
    + unfold mret, M_ret, write_text.
      change (parent_exists (path_of filename) (log (Get (url_of filename)) w))
        with (parent_exists (path_of filename) w).
      change (directories (log (Get (url_of filename)) w)) with (directories w).
      destruct (parent_exists (path_of filename) w) eqn:Hp; cbn [negb fst snd].
      * destruct (bool_decide (path_of filename ∈ directories w)) eqn:Hd; cbn [fst snd].
        -- apply bool_decide_eq_true in Hd. eapply ran_directory; eassumption.
        -- apply bool_decide_eq_false in Hd.
           destruct (utf8_encode (json_dumps obj 2)) as [bytes|] eqn:Hb; cbn [fst snd].
           ++ eapply ran_written; eassumption.
           ++ eapply ran_unencodable; eassumption.
      * eapply ran_no_parent; eassumption.
    + eapply ran_not_json; eassumption.
  - apply ran_transport, Hr.
Qed.

Lemma download_data_unfold w :
  download_data w =
  match loop_body countries_lakes w with
  | (Returned _, w1) =>
    match loop_body states_provinces w1 with
    | (Returned _, w2) => (Returned tt, w2)
    | (Raised e, w2) => (Raised e, w2)
    end
  | (Raised e, w1) => (Raised e, w1)
  end.
Proof. reflexivity. Qed.

Lemma download_data_outcome w :
  run_outcome w (fst (download_data w)) (snd (download_data w)).
Proof.
  rewrite download_data_unfold.
  pose proof (loop_body_ran countries_lakes w) as H1.
  destruct (loop_body countries_lakes w) as [[[]|e] w1]; cbn [fst snd] in *.
  - pose proof (loop_body_ran states_provinces w1) as H2.
    destruct (loop_body states_provinces w1) as [[[]|e] w2]; cbn [fst snd] in *.
    + apply completed with w1; assumption.
    + apply stopped_second with w1; assumption.
  - apply stopped_first, H1.
Qed.

End Runs.

Lemma filenames_named : filenames = [countries_lakes; states_provinces].
Proof. reflexivity. Qed.

Lemma filenames_cases (filename : string) :
  filename ∈ filenames -> filename = countries_lakes \/ filename = states_provinces.
Proof.
  rewrite filenames_named. intros H.
  apply elem_of_cons in H as [H|H]; [left; exact H|].
  apply list_elem_of_singleton in H. right; exact H.
Qed.

Lemma paths_distinct : path_of countries_lakes <> path_of states_provinces.
Proof. intros H. apply String.eqb_eq in H. vm_compute in H. discriminate H. Qed.

Lemma urls_distinct : url_of countries_lakes <> url_of states_provinces.
Proof. intros H. apply String.eqb_eq in H. vm_compute in H. discriminate H. Qed.

Lemma parent_exists_data filename w :
  filename ∈ filenames ->
  parent_exists (path_of filename) w = bool_decide ("data"%string ∈ directories w).
Proof. intros H. destruct (filenames_cases _ H) as [-> | ->]; reflexivity. Qed.

Section RunFacts.
Context {F : PyFloat}.

Lemma performed_of w evs :
  trace (snd (download_data w)) = trace w ++ evs -> performed w = evs.
Proof. intros H. unfold performed. rewrite H. apply drop_app_length. Qed.

(** What a round leaves alone. *)
Lemma ran_frame filename w res w' :
  ran filename w res w' ->
  argv w' = argv w /\ environ w' = environ w /\ remote w' = remote w
  /\ directories w' = directories w.
Proof. destruct 1; repeat split. Qed.

End RunFacts.

Lemma parent_exists_log path e w : parent_exists path (log e w) = parent_exists path w.
Proof. reflexivity. Qed.

Lemma parent_exists_store path p b w :
  parent_exists path (store p b w) = parent_exists path w.
Proof. reflexivity. Qed.

(** Case analysis on a run: the outcome, then each round. *)
Ltac world_simpl :=
  cbn [argv environ remote directories files trace log store fst snd] in *;
  repeat match goal with
         | H : context [parent_exists _ (log _ _)] |- _ =>
           rewrite parent_exists_log in H
         | H : context [parent_exists _ (store _ _ _)] |- _ =>
           rewrite parent_exists_store in H
         end.

Ltac run_cases w :=
  let H := fresh "Hrun" in
  pose proof (download_data_outcome w) as H;
  let E := fresh "Hdl" in
  destruct (download_data w) as [? ?] eqn:E; cbn [fst snd] in H;
  inversion H; subst; clear H;
  repeat match goal with
         | Hr : ran _ _ _ _ |- _ => inversion Hr; subst; clear Hr
         end;
  world_simpl.

Ltac performed_simpl w :=
  match goal with
  | E : download_data w = (_, ?w') |- _ =>
    let H := fresh "Hperf" in
    assert (H : trace (snd (download_data w)) = trace w') by (rewrite E; reflexivity);
    cbn [trace log store] in H; rewrite <- ?app_assoc in H; cbn [app] in H;
    apply performed_of in H; rewrite ?H in *
  end.

(** Membership in an explicit list of events. *)
Ltac mem_cases H :=
  repeat match type of H with
         | _ ∈ _ :: _ => apply elem_of_cons in H; destruct H as [H|H]
         | _ ∈ [] => apply elem_of_nil in H; contradiction
         end.

Section Claims.
Context {F : PyFloat}.

(** Every write event of a run carries the encoded re-serialisation of
    the body fetched for its item. *)
Lemma performed_write w path bytes :
  Write path bytes ∈ performed w ->
  exists filename r obj,
    filename ∈ filenames /\ path = path_of filename
    /\ remote w (url_of filename) = Returned r
    /\ json_loads (text r) = Some obj
    /\ utf8_encode (json_dumps obj 2) = Some bytes.
Proof.
  intros Hw. rewrite filenames_named.
  run_cases w; performed_simpl w; mem_cases Hw; try discriminate Hw;
    injection Hw as -> ->.
  all: first [ exists countries_lakes; do 2 eexists;
               split; [apply list_elem_of_here|];
               split; [reflexivity|]; split; [eassumption|]; split; eassumption
             | exists states_provinces; do 2 eexists;
               split; [apply list_elem_of_further, list_elem_of_here|];
               split; [reflexivity|]; split; [eassumption|]; split; eassumption ].
Qed.

(** Each URL is fetched at most once in a run. *)
Lemma performed_get_once w url i j :
  performed w !! i = Some (Get url) -> performed w !! j = Some (Get url) -> i = j.
Proof.
  pose proof urls_distinct as Hu.
  run_cases w; performed_simpl w; intros Hi Hj.
  all: repeat (destruct i as [|i]; cbn in Hi; try discriminate Hi).
  all: repeat (destruct j as [|j]; cbn in Hj; try discriminate Hj).
  all: try reflexivity; congruence.
Qed.

(** A file holds what the last write event for its path wrote. *)
Lemma performed_write_kept w path bytes :
  Write path bytes ∈ performed w ->
  files (snd (download_data w)) !! path = Some bytes.
Proof.
  pose proof paths_distinct as Hp. intros Hw.
  run_cases w; performed_simpl w; mem_cases Hw; try discriminate Hw;
    injection Hw as -> ->.
  all: rewrite ?lookup_insert_eq; try reflexivity.
  all: rewrite lookup_insert_ne by congruence; apply lookup_insert_eq.
Qed.

End Claims.

(** ** The literal floats satisfy the laws *)

#[global] Instance LiteralFloat_laws : PyFloatLaws LiteralFloat.
Proof.
  split.
  - intros c. reflexivity.
  - intros t Ht. left. split; [exact Ht | reflexivity].
Qed.

(** ** The claims *)

Section Specification.
Context {F : PyFloat}.

(** C2. A body that [json.loads] rejects ends the run with an error; the
    file of that identifier is neither opened nor changed, and every file
    written earlier in the run keeps what was written. *)
Theorem C2_non_json_body_is_fatal w filename r :
  filename ∈ filenames ->
  remote w (url_of filename) = Returned r ->
  json_loads (text r) = None ->
  (exists e, fst (download_data w) = Raised e)
  /\ files (snd (download_data w)) !! path_of filename = files w !! path_of filename
  /\ Open (path_of filename) ∉ performed w
  /\ (forall bytes, Write (path_of filename) bytes ∉ performed w)
  /\ (forall path bytes, Write path bytes ∈ performed w ->
        files (snd (download_data w)) !! path = Some bytes).
Proof.
  intros Hin Hr Hj. split; [|split; [|split; [|split]]].
  5: { intros path bytes. apply performed_write_kept. }
  all: pose proof paths_distinct as Hp; pose proof urls_distinct as Hu.
  all: destruct (filenames_cases _ Hin) as [-> | ->]; run_cases w; performed_simpl w.
  all: try congruence.
  all: eauto.
  all: rewrite ?lookup_insert_ne by congruence; try reflexivity.
  all: try (intros; set_solver).
Qed.

(** C1, amended. A GET that fails in transport, or whose response (of any
    status) has a body that [json.loads] rejects, ends the run with an
    error, without a write of that identifier's file and without a second
    GET of its URL. *)
Theorem C1_failed_fetch_is_fatal w filename :
  filename ∈ filenames ->
  ((exists e, remote w (url_of filename) = Raised e)
   \/ (exists r, remote w (url_of filename) = Returned r /\ json_loads (text r) = None)) ->
  (exists e, fst (download_data w) = Raised e)
  /\ (forall bytes, Write (path_of filename) bytes ∉ performed w)
  /\ (forall i j, performed w !! i = Some (Get (url_of filename)) ->
                  performed w !! j = Some (Get (url_of filename)) -> i = j).
Proof.
  intros Hin Hfail. split; [|split].
  3: { intros i j. apply performed_get_once. }
  all: pose proof paths_distinct as Hp; pose proof urls_distinct as Hu.
  all: destruct Hfail as [[e He]|(r & Hr & Hj)].
  all: destruct (filenames_cases _ Hin) as [-> | ->]; run_cases w; performed_simpl w.
  all: try congruence.
  all: eauto.
  all: try (intros; set_solver).
Qed.



(** C9. Two runs whose fetches return the same body texts write the same
    bytes to each path they write to. *)
Theorem C9_bytes_depend_on_bodies_only w1 w2 :
  (forall filename, filename ∈ filenames ->
     exists r1 r2, remote w1 (url_of filename) = Returned r1
                   /\ remote w2 (url_of filename) = Returned r2
                   /\ text r1 = text r2) ->
  forall path bytes1 bytes2,
    Write path bytes1 ∈ performed w1 -> Write path bytes2 ∈ performed w2 ->
    bytes1 = bytes2.
Proof.
  intros Hsame path bytes1 bytes2 H1 H2.
  apply performed_write in H1 as (f1 & r1 & o1 & Hf1 & -> & Hr1 & Ho1 & Hb1).
  apply performed_write in H2 as (f2 & r2 & o2 & Hf2 & Hpath & Hr2 & Ho2 & Hb2).
  assert (f2 = f1) as ->.
  { pose proof paths_distinct as Hp.
    destruct (filenames_cases _ Hf1) as [-> | ->],
             (filenames_cases _ Hf2) as [-> | ->]; congruence. }
  destruct (Hsame f1 Hf1) as (r1' & r2' & Hr1' & Hr2' & Ht).
  assert (r1' = r1) as -> by congruence. assert (r2' = r2) as -> by congruence.
  rewrite Ht in Ho1. congruence.
Qed.

(** C6. A second run, on the files the first one left and with the same
    bodies, succeeds and leaves the files as the first run left them. *)
Theorem C6_second_run_changes_nothing w w1 :
  fst (download_data w) = Returned tt ->
  directories w1 = directories (snd (download_data w)) ->
  files w1 = files (snd (download_data w)) ->
  (forall filename, filename ∈ filenames ->
     exists r r', remote w (url_of filename) = Returned r
                  /\ remote w1 (url_of filename) = Returned r'
                  /\ text r' = text r) ->
  fst (download_data w1) = Returned tt
  /\ files (snd (download_data w1)) = files (snd (download_data w))
  /\ directories (snd (download_data w1)) = directories (snd (download_data w)).
Proof.
  intros Hok Hd Hf Hsame.
  destruct (Hsame countries_lakes ltac:(rewrite filenames_named; set_solver))
    as (ra & ra' & Hra & Hra' & Hta).
  destruct (Hsame states_provinces ltac:(rewrite filenames_named; set_solver))
    as (rb & rb' & Hrb & Hrb' & Htb).
  clear Hsame. pose proof paths_distinct as Hp.
  run_cases w; try discriminate Hok. clear Hok.
  repeat match goal with
         | H : remote ?w ?u = Returned ?r, H' : remote ?w ?u = Returned ?r' |- _ =>
           assert (r' = r) by congruence; subst r'; clear H'
         end.
  assert (Hpe : forall p, parent_exists p w1 = parent_exists p w).
  { intros p. unfold parent_exists. rewrite Hd. reflexivity. }
  run_cases w1; rewrite ?Hpe in *; rewrite ?Hd, ?Hf in *; try congruence.
  all: repeat match goal with
              | H : remote ?w ?u = Returned ?r, H' : remote ?w ?u = Returned ?r' |- _ =>
                assert (r' = r) by congruence; subst r'; clear H'
              end.
  all: rewrite ?Hta, ?Htb in *; try congruence.
  split; [reflexivity|]. split; [|reflexivity].
  repeat match goal with
         | H : json_loads ?s = Some ?o, H' : json_loads ?s = Some ?o' |- _ =>
           assert (o' = o) by congruence; subst o'; clear H'
         end.
  repeat match goal with
         | H : utf8_encode ?t = Some ?b, H' : utf8_encode ?t = Some ?b' |- _ =>
           assert (b' = b) by congruence; subst b'; clear H'
         end.
  apply map_eq. intros k. rewrite !lookup_insert.
  repeat case_decide; congruence.
Qed.


Context {L : PyFloatLaws F}.

(** What is written is the text of [json.dumps], byte for byte. *)
Lemma written_bytes s obj bytes :
  json_loads s = Some obj -> utf8_encode (json_dumps obj 2) = Some bytes ->
  bytes = json_dumps obj 2.
Proof.
  intros Hs Hb. rewrite (json_dumps_encodable s obj 2 Hs) in Hb. congruence.
Qed.


(** After a successful run the file of each identifier holds the
    re-serialisation of the body fetched for it. *)
Lemma completed_file w filename :
  fst (download_data w) = Returned tt -> filename ∈ filenames ->
  exists r obj,
    remote w (url_of filename) = Returned r
    /\ json_loads (text r) = Some obj
    /\ files (snd (download_data w)) !! path_of filename = Some (json_dumps obj 2).
Proof.
  intros Hok Hin. pose proof paths_distinct as Hp.
  destruct (filenames_cases _ Hin) as [-> | ->]; run_cases w; try discriminate Hok.
  all: repeat match goal with
              | H : utf8_encode (json_dumps ?o 2) = _, H' : json_loads ?s = Some ?o |- _ =>
                rewrite (json_dumps_encodable s o 2 H') in H; injection H as <-
              end.
  all: do 2 eexists; split; [eassumption|]; split; [eassumption|].
  - rewrite lookup_insert_ne by congruence. apply lookup_insert_eq.
  - apply lookup_insert_eq.
Qed.

(** C4. After a successful run, the file of each identifier exists and
    parses to the same document as the body returned for it. *)
Theorem C4_file_holds_the_document w filename r :
  fst (download_data w) = Returned tt ->
  filename ∈ filenames ->
  remote w (url_of filename) = Returned r ->
  Forall scalar (text r) ->
  exists doc content,
    json_loads (text r) = Some doc
    /\ read_text (path_of filename) (snd (download_data w)) = Some content
    /\ json_loads content = Some doc.
Proof.
  intros Hok Hin Hr Hs.
  destruct (completed_file w filename Hok Hin) as (r' & obj & Hr' & Hobj & Hfile).
  assert (r' = r) as -> by congruence.
  exists obj, (json_dumps obj 2). split; [exact Hobj|]. split.
  - unfold read_text. rewrite Hfile. apply utf8_decode_ascii.
    eapply json_dumps_ascii, json_loads_decoded, Hobj.
  - apply json_loads_dumps. eapply json_loads_well_formed; eassumption.
Qed.

(** C5. After a successful run, parsing a written file and serialising
    it again with indent 2 gives back the bytes of the file. *)
Theorem C5_written_file_is_a_fixed_point w filename :
  fst (download_data w) = Returned tt ->
  filename ∈ filenames ->
  (forall r, remote w (url_of filename) = Returned r -> Forall scalar (text r)) ->
  exists bytes content doc,
    files (snd (download_data w)) !! path_of filename = Some bytes
    /\ utf8_decode bytes = Some content
    /\ json_loads content = Some doc
    /\ utf8_encode (json_dumps doc 2) = Some bytes.
Proof.
  intros Hok Hin Hs.
  destruct (completed_file w filename Hok Hin) as (r & obj & Hr & Hobj & Hfile).
  exists (json_dumps obj 2), (json_dumps obj 2), obj.
  split; [exact Hfile|]. split; [|split].
  - apply utf8_decode_ascii. eapply json_dumps_ascii, json_loads_decoded, Hobj.
  - apply json_loads_dumps. eapply json_loads_well_formed; [apply Hs, Hr | exact Hobj].
  - eapply json_dumps_encodable, Hobj.
Qed.

(** C10. Every byte a run writes is ASCII: the bytes are the code points
    of the text of [json.dumps], in which every character outside the
    printable ASCII range is escaped. *)
Theorem C10_written_bytes_are_ascii w path bytes :
  Write path bytes ∈ performed w ->
  Forall is_ascii bytes
  /\ exists filename r obj,
       filename ∈ filenames /\ path = path_of filename
       /\ remote w (url_of filename) = Returned r
       /\ json_loads (text r) = Some obj
       /\ bytes = json_dumps obj 2.
Proof.
  intros Hw.
  apply performed_write in Hw as (f & r & obj & Hf & -> & Hr & Hobj & Hb).
  pose proof (written_bytes _ _ _ Hobj Hb) as ->. split.
  - eapply json_dumps_ascii, json_loads_decoded, Hobj.
  - exists f, r, obj. repeat split; assumption.
Qed.

End Specification.

(** A character outside ASCII is written as an escape: one [\uXXXX] in
    the basic plane, a surrogate pair of two beyond it. *)
Lemma encode_char_non_ascii c :
  128 <= c <= 0x10ffff ->
  encode_char c =
  if c <? 0x10000 then backslash_u c
  else backslash_u (0xd800 + (c - 0x10000) / 1024)
       ++ backslash_u (0xdc00 + (c - 0x10000) mod 1024).
Proof.
  intros Hc. unfold encode_char, escape_ascii_matches, escape_replace. zdec.
  destruct (Z.ltb_spec c 0x10000); [reflexivity|].
  cbv zeta. rewrite high_surrogate_of, low_surrogate_of by lia. reflexivity.
Qed.

(** ** The claims on sample worlds *)

Ltac scalar_text :=
  repeat lazymatch goal with
         | |- Forall _ [] => apply List.Forall_nil
         | |- Forall _ (_ :: _) => apply List.Forall_cons; [split; [lia | reflexivity]|]
         end.

Lemma C2_non_json_body_is_fatal_witness :
  json_loads (F := LiteralFloat) (lit "404: Not Found") = None
  /\ (exists e, fst (download_data (F := LiteralFloat) not_found_world) = Raised e)
  /\ files (snd (download_data (F := LiteralFloat) not_found_world))
       !! path_of states_provinces = None
  /\ files (snd (download_data (F := LiteralFloat) not_found_world))
       !! path_of countries_lakes = Some (reserialized sample_countries).
Proof.
  pose proof (C2_non_json_body_is_fatal (F := LiteralFloat) not_found_world states_provinces
                {| status_code := 404; text := lit "404: Not Found" |}) as H.
  destruct H as (He & Hfile & _ & _ & Hkept).
  - apply list_elem_of_further, list_elem_of_here.
  - vm_compute. reflexivity.
  - vm_compute. reflexivity.
  - split; [vm_compute; reflexivity|]. split; [exact He|]. split.
    + rewrite Hfile. vm_compute. reflexivity.
    + apply Hkept. apply list_elem_of_In. vm_compute. right; right; left. reflexivity.
Defined.

Lemma C1_failed_fetch_is_fatal_witness :
  (exists e, fst (download_data (F := LiteralFloat) not_found_world) = Raised e)
  /\ (forall bytes, Write (path_of states_provinces) bytes
                    ∉ performed (F := LiteralFloat) not_found_world).
Proof.
  pose proof (C1_failed_fetch_is_fatal (F := LiteralFloat) not_found_world states_provinces) as H.
  destruct H as (He & Hw & _).
  - apply list_elem_of_further, list_elem_of_here.
  - right. exists {| status_code := 404; text := lit "404: Not Found" |}.
    split; vm_compute; reflexivity.
  - split; assumption.
Defined.

(** C1 as the specification states it: a response with a non-success
    status ends the run with an error, without a write of the
    identifier's file and without a second GET.  It fails in a world where
    the host answers the first URL with status 404 and the body [{}]:
    the run succeeds. *)
Lemma C1_counterexample :
  ~ (forall (w : World) (filename : string) (r : Response),
       filename ∈ filenames ->
       remote w (url_of filename) = Returned r ->
       ~ 200 <= status_code r < 300 ->
       (exists e, fst (download_data (F := LiteralFloat) w) = Raised e)
       /\ (forall bytes, Write (path_of filename) bytes ∉ performed (F := LiteralFloat) w)
       /\ (forall i j, performed (F := LiteralFloat) w !! i = Some (Get (url_of filename)) ->
                       performed (F := LiteralFloat) w !! j = Some (Get (url_of filename)) ->
                       i = j)).
Proof.
  intros H.
  destruct (H json_404_world countries_lakes {| status_code := 404; text := lit "{}" |})
    as [[e He] _].
  - apply list_elem_of_here.
  - vm_compute. reflexivity.
  - cbn. lia.
  - vm_compute in He. discriminate He.
Qed.

(** In that world the file is written, with the body's document. *)
Lemma json_404_world_written :
  fst (download_data (F := LiteralFloat) json_404_world) = Returned tt
  /\ files (snd (download_data (F := LiteralFloat) json_404_world))
       !! path_of countries_lakes = Some (lit "{}").
Proof. split; vm_compute; reflexivity. Qed.


Lemma C4_file_holds_the_document_witness :
  exists doc content,
    json_loads (F := LiteralFloat) sample_countries = Some doc
    /\ read_text (path_of countries_lakes)
         (snd (download_data (F := LiteralFloat) sample_world)) = Some content
    /\ json_loads content = Some doc.
Proof.
  apply (C4_file_holds_the_document (F := LiteralFloat) sample_world
           countries_lakes {| status_code := 200; text := sample_countries |}).
  - vm_compute. reflexivity.
  - apply list_elem_of_here.
  - vm_compute. reflexivity.
  - compute_text. scalar_text.
Defined.

Lemma C5_written_file_is_a_fixed_point_witness :
  exists (bytes content : pystr) (doc : @value LiteralFloat),
    files (snd (download_data (F := LiteralFloat) sample_world))
      !! path_of states_provinces = Some bytes
    /\ utf8_decode bytes = Some content
    /\ json_loads content = Some doc
    /\ utf8_encode (json_dumps doc 2) = Some bytes.
Proof.
  apply (C5_written_file_is_a_fixed_point (F := LiteralFloat)
           sample_world states_provinces).
  - vm_compute. reflexivity.
  - apply list_elem_of_further, list_elem_of_here.
  - intros r Hr. vm_compute in Hr. injection Hr as <-. compute_text. scalar_text.
Defined.

Lemma C6_second_run_changes_nothing_witness :
  fst (download_data (F := LiteralFloat) sample_world) = Returned tt
  /\ fst (download_data (F := LiteralFloat) second_world) = Returned tt
  /\ files (snd (download_data (F := LiteralFloat) second_world))
     = files (snd (download_data (F := LiteralFloat) sample_world)).
Proof.
  assert (Hok : fst (download_data (F := LiteralFloat) sample_world) = Returned tt)
    by (vm_compute; reflexivity).
  split; [exact Hok|].
  destruct (C6_second_run_changes_nothing (F := LiteralFloat)
              sample_world second_world) as (H1 & H2 & _).
  - exact Hok.
  - reflexivity.
  - reflexivity.
  - intros filename Hin. destruct (filenames_cases _ Hin) as [-> | ->].
    + exists {| status_code := 200; text := sample_countries |},
             {| status_code := 200; text := sample_countries |}.
      repeat split; vm_compute; reflexivity.
    + exists {| status_code := 200; text := sample_states |},
             {| status_code := 200; text := sample_states |}.
      repeat split; vm_compute; reflexivity.
  - split; assumption.
Defined.



Lemma C9_bytes_depend_on_bodies_only_witness :
  Write (path_of countries_lakes) (reserialized sample_countries)
    ∈ performed (F := LiteralFloat) other_world
  /\ forall bytes,
       Write (path_of countries_lakes) bytes ∈ performed (F := LiteralFloat) sample_world ->
       bytes = reserialized sample_countries.
Proof.
  assert (Hother : Write (path_of countries_lakes) (reserialized sample_countries)
                     ∈ performed (F := LiteralFloat) other_world).
  { apply list_elem_of_In. vm_compute. right; right; left. reflexivity. }
  split; [exact Hother|]. intros bytes Hw.
  apply (C9_bytes_depend_on_bodies_only (F := LiteralFloat) sample_world other_world)
    with (path := path_of countries_lakes); [|exact Hw|exact Hother].
  intros filename Hin. destruct (filenames_cases _ Hin) as [-> | ->].
  - exists {| status_code := 200; text := sample_countries |},
           {| status_code := 203; text := sample_countries |}.
    repeat split; vm_compute; reflexivity.
  - exists {| status_code := 200; text := sample_states |},
           {| status_code := 404; text := sample_states |}.
    repeat split; vm_compute; reflexivity.
Defined.

Lemma C10_written_bytes_are_ascii_witness :
  Write (path_of countries_lakes) (reserialized sample_countries)
    ∈ performed (F := LiteralFloat) sample_world
  /\ Forall is_ascii (reserialized sample_countries).
Proof.
  assert (Hw : Write (path_of countries_lakes) (reserialized sample_countries)
                 ∈ performed (F := LiteralFloat) sample_world).
  { apply list_elem_of_In. vm_compute. right; right; left. reflexivity. }
  split; [exact Hw|].
  apply (C10_written_bytes_are_ascii (F := LiteralFloat)
           sample_world (path_of countries_lakes) (reserialized sample_countries) Hw).
Defined.

(** * Further properties *)

(** ** The order and the reach of a run *)

Section Reach.
Context {F : PyFloat}.

(** X1. Every run starts with the GET of the first URL and requests no URL
    other than the two of the script; the second URL is requested exactly
    when the first file was written. *)
Theorem second_get_follows_first_write w :
  (exists rest, performed w = Get (url_of countries_lakes) :: rest)
  /\ (forall url, Get url ∈ performed w ->
        url = url_of countries_lakes \/ url = url_of states_provinces)
  /\ ((exists bytes, Write (path_of countries_lakes) bytes ∈ performed w)
      <-> Get (url_of states_provinces) ∈ performed w).
Proof.
  pose proof urls_distinct as Hu. pose proof paths_distinct as Hp.
  run_cases w; performed_simpl w.
  all: split; [eexists; reflexivity|]; split.
  all: try (intros url Hg; mem_cases Hg; try discriminate Hg;
            injection Hg as ->; auto).
  all: split; [intros [b0 Hw]|intros Hw].
  all: try (mem_cases Hw; try discriminate Hw; injection Hw; congruence).
  all: try (apply list_elem_of_further, list_elem_of_further, list_elem_of_further,
              list_elem_of_here).
  all: eexists; apply list_elem_of_further, list_elem_of_further, list_elem_of_here.
Qed.

(** X2. A run opens and writes no path other than the two output paths,
    leaves every other file as it was, and creates or removes no
    directory. *)
Theorem run_touches_only_outputs w path :
  path <> path_of countries_lakes -> path <> path_of states_provinces ->
  files (snd (download_data w)) !! path = files w !! path
  /\ Open path ∉ performed w
  /\ (forall bytes, Write path bytes ∉ performed w)
  /\ directories (snd (download_data w)) = directories w.
Proof.
  intros H1 H2.
  run_cases w; performed_simpl w.
  all: split; [rewrite ?lookup_insert_ne by congruence; reflexivity|].
  all: split; [intros Ho; mem_cases Ho; try discriminate Ho; injection Ho; congruence|].
  all: split; [|reflexivity].
  all: intros b0 Ho; mem_cases Ho; try discriminate Ho; injection Ho; congruence.
Qed.

(** A round reads neither the status code of the response nor the files
    that exist. *)
Lemma loop_body_alike filename w1 w2 :
  alike w1 w2 ->
  fst (loop_body filename w1) = fst (loop_body filename w2)
  /\ alike (snd (loop_body filename w1)) (snd (loop_body filename w2))
  /\ (files w1 = files w2 ->
      files (snd (loop_body filename w1)) = files (snd (loop_body filename w2))).
Proof.
  intros (Hr & Hd & Ht).
  destruct w1 as [a1 e1 h1 d1 f1 t1], w2 as [a2 e2 h2 d2 f2 t2].
  cbn [remote directories files trace] in *. subst d2 t2.
  pose proof (Hr (url_of filename)) as Ha.
  unfold loop_body, mbind, M_bind, requests_get, loads, mret, M_ret, raise,
    write_text, parent_exists, alike.
  cbn [remote directories files trace log store fst snd].
  destruct (h1 (url_of filename)) as [r1|x1], (h2 (url_of filename)) as [r2|x2];
    cbn [same_answer] in Ha; try contradiction; cbn [fst snd].
  2: { subst x2. auto. }
  rewrite <- Ha.
  destruct (json_loads (text r1)) as [obj|]; cbn [fst snd]; [|auto].
  cbn [remote directories files trace log store fst snd].
  destruct (negb _); cbn [fst snd]; [auto|].
  destruct (bool_decide _); cbn [fst snd]; [auto|].
  destruct (utf8_encode _); cbn [remote directories files trace log store fst snd].
  all: split; [reflexivity|]; split; [auto|]; intros ->; reflexivity.
Qed.

Lemma download_data_alike w1 w2 :
  alike w1 w2 ->
  fst (download_data w1) = fst (download_data w2)
  /\ alike (snd (download_data w1)) (snd (download_data w2))
  /\ (files w1 = files w2 ->
      files (snd (download_data w1)) = files (snd (download_data w2))).
Proof.
  intros Hsame. rewrite !download_data_unfold.
  destruct (loop_body_alike countries_lakes w1 w2 Hsame) as (Hr1 & Hs1 & Hf1).
  destruct (loop_body countries_lakes w1) as [[[]|x1] w1'],
           (loop_body countries_lakes w2) as [[[]|x2] w2'];
    cbn [fst snd] in *; try discriminate Hr1; [|auto].
  destruct (loop_body_alike states_provinces w1' w2' Hs1) as (Hr2 & Hs2 & Hf2).
  destruct (loop_body states_provinces w1') as [[[]|y1] w1''],
           (loop_body states_provinces w2') as [[[]|y2] w2''];
    cbn [fst snd] in *; try discriminate Hr2; auto.
Qed.

Lemma performed_alike w1 w2 : alike w1 w2 -> performed w1 = performed w2.
Proof.
  intros Hsame. destruct (download_data_alike w1 w2 Hsame) as (_ & (_ & _ & Ht) & _).
  destruct Hsame as (_ & _ & Ht0). unfold performed. rewrite Ht, Ht0. reflexivity.
Qed.

(** X3. The status code of a response is never read: two runs whose
    responses differ at most in their status codes end alike, perform
    the same events and leave the same files. *)
Theorem status_code_is_never_read w1 w2 :
  (forall url, same_answer (remote w1 url) (remote w2 url)) ->
  directories w1 = directories w2 -> files w1 = files w2 -> trace w1 = trace w2 ->
  fst (download_data w1) = fst (download_data w2)
  /\ performed w1 = performed w2
  /\ files (snd (download_data w1)) = files (snd (download_data w2)).
Proof.
  intros Hr Hd Hf Ht.
  assert (Hsame : alike w1 w2) by (split; [exact Hr|split; assumption]).
  destruct (download_data_alike w1 w2 Hsame) as (Hres & _ & Hfiles).
  split; [exact Hres|]. split; [apply performed_alike, Hsame|]. apply Hfiles, Hf.
Qed.


(** X5. When a run fails after the second URL was requested, the first
    file holds the encoded re-serialisation of the first body: the result
    of the first item is kept. *)
Theorem first_file_survives_second_failure w e :
  fst (download_data w) = Raised e ->
  Get (url_of states_provinces) ∈ performed w ->
  exists r obj bytes,
    remote w (url_of countries_lakes) = Returned r
    /\ json_loads (text r) = Some obj
    /\ utf8_encode (json_dumps obj 2) = Some bytes
    /\ files (snd (download_data w)) !! path_of countries_lakes = Some bytes.
Proof.
  pose proof urls_distinct as Hu. pose proof paths_distinct as Hp.
  intros He Hg.
  run_cases w; performed_simpl w; try discriminate He.
  all: try (mem_cases Hg; try discriminate Hg; injection Hg; congruence).
  all: do 3 eexists; split; [eassumption|]; split; [eassumption|];
    split; [eassumption|].
  all: rewrite ?(lookup_insert_ne _ (path_of states_provinces)) by congruence.
  all: apply lookup_insert_eq.
Qed.

(** X6. An output path that is a directory ends the run with an error;
    nothing is written to that path and the files are not changed there.
    When it is the first output path, and the first fetch and parse
    succeed, the error is [IsADirectoryError], raised at the first open. *)
Theorem output_path_directory_is_fatal w filename :
  filename ∈ filenames ->
  path_of filename ∈ directories w ->
  (exists e, fst (download_data w) = Raised e)
  /\ (forall bytes, Write (path_of filename) bytes ∉ performed w)
  /\ files (snd (download_data w)) !! path_of filename = files w !! path_of filename
  /\ (filename = countries_lakes ->
      forall r obj, remote w (url_of countries_lakes) = Returned r ->
        json_loads (text r) = Some obj -> "data"%string ∈ directories w ->
        fst (download_data w) = Raised IsADirectoryError
        /\ performed w = [Get (url_of countries_lakes); Open (path_of countries_lakes)]).
Proof.
  pose proof urls_distinct as Hu. pose proof paths_distinct as Hp.
  intros Hin Hdir.
  assert (Hpe : "data"%string ∈ directories w ->
                parent_exists (path_of countries_lakes) w = true).
  { intros Hdata. rewrite (parent_exists_data countries_lakes w)
      by (rewrite filenames_named; set_solver).
    apply bool_decide_eq_true, Hdata. }
  destruct (filenames_cases _ Hin) as [-> | ->]; run_cases w; performed_simpl w.
  all: try contradiction.
  all: split; [eauto|].
  all: split; [intros b0 Ho; mem_cases Ho; try discriminate Ho;
               injection Ho; congruence|].
  all: split; [rewrite ?lookup_insert_ne by congruence; reflexivity|].
  all: intros Hf r' obj' Hr' Ho' Hdata; try congruence.
  all: try (specialize (Hpe Hdata); congruence).
  all: split; reflexivity.
Qed.

(** A blank text is skipped entirely. *)
Lemma skip_ws_blank s : blank s -> skip_ws s = [].
Proof.
  induction 1 as [|c s Hc _ IH]; [reflexivity|].
  cbn [skip_ws]. rewrite Hc. exact IH.
Qed.

Lemma startswith_bom_ws c s : is_ws c = true -> startswith [0xfeff] (c :: s) = false.
Proof.
  intros Hc. cbn [startswith]. unfold is_ws in Hc.
  destruct (Z.eqb_spec 0xfeff c) as [<-|]; [discriminate Hc|reflexivity].
Qed.

Lemma json_loads_blank s : blank s -> json_loads s = None.
Proof.
  intros Hs. unfold json_loads, decode. rewrite (skip_ws_blank s Hs).
  destruct Hs as [|c s Hc Hs]; [reflexivity|].
  rewrite (startswith_bom_ws c s Hc). reflexivity.
Qed.

(** X7. An empty body, or one of white space only, is rejected: when it
    answers the first URL, the run ends with [JSONDecodeError] after that
    one GET and changes no file. *)
Theorem blank_body_is_fatal w r :
  remote w (url_of countries_lakes) = Returned r ->
  blank (text r) ->
  json_loads (text r) = None
  /\ fst (download_data w) = Raised JSONDecodeError
  /\ performed w = [Get (url_of countries_lakes)]
  /\ files (snd (download_data w)) = files w.
Proof.
  intros Hr Hb. pose proof (json_loads_blank _ Hb) as Hj.
  split; [exact Hj|].
  run_cases w; performed_simpl w; try congruence.
  repeat split.
Qed.

End Reach.

(** ** How a run ends *)

Section Endings.
Context {F : PyFloat} {L : PyFloatLaws F}.

(** X8. A run succeeds exactly when the directory [data] exists and, for
    each identifier, the output path is not a directory, the GET returns
    a response and [json.loads] accepts its body. *)
Theorem run_succeeds_iff w :
  fst (download_data w) = Returned tt <->
  ("data"%string ∈ directories w
   /\ forall filename, filename ∈ filenames ->
        path_of filename ∉ directories w
        /\ exists r obj, remote w (url_of filename) = Returned r
                         /\ json_loads (text r) = Some obj).
Proof.
  assert (Hpe : forall filename, filename ∈ filenames ->
                  parent_exists (path_of filename) w
                  = bool_decide ("data"%string ∈ directories w)).
  { intros f Hf. apply parent_exists_data, Hf. }
  pose proof (Hpe countries_lakes ltac:(rewrite filenames_named; set_solver)) as Hpe1.
  pose proof (Hpe states_provinces ltac:(rewrite filenames_named; set_solver)) as Hpe2.
  clear Hpe. split.
  - intros Hok. run_cases w; try discriminate Hok.
    split; [apply (bool_decide_eq_true_1 _); congruence|].
    intros f Hf. destruct (filenames_cases _ Hf) as [-> | ->]; eauto.
  - intros [Hdata Hall].
    destruct (Hall countries_lakes ltac:(rewrite filenames_named; set_solver))
      as (Hd1 & r1 & o1 & Hr1 & Ho1).
    destruct (Hall states_provinces ltac:(rewrite filenames_named; set_solver))
      as (Hd2 & r2 & o2 & Hr2 & Ho2).
    apply (bool_decide_eq_true_2 _) in Hdata.
    run_cases w; try congruence.
    all: repeat match goal with
                | H : utf8_encode (json_dumps ?o 2) = _, H' : json_loads ?s = Some ?o |- _ =>
                  rewrite (json_dumps_encodable s o 2 H') in H
                end; try congruence.
    all: contradiction.
Qed.


End Endings.

(** ** The decoder and the encoder of line 8 *)

Section Documents.
Context {F : PyFloat}.

(** The scanner gives the same result with any fuel above the length of
    the text. *)
Lemma scan_once_stable n m s :
  (length s < n)%nat -> (length s < m)%nat -> scan_once n s = scan_once m s.
Proof.
  intros Hn Hm. destruct (scan_once n s) as [x|] eqn:En.
  - symmetry. exact (scan_once_enough n s x m En Hm).
  - destruct (scan_once m s) as [y|] eqn:Em; [|reflexivity].
    rewrite (scan_once_enough m s y n Em Hn) in En. discriminate En.
Qed.

Lemma skip_ws_app_blank ws s : blank ws -> skip_ws (ws ++ s) = skip_ws s.
Proof.
  induction 1 as [|c ws Hc _ IH]; [reflexivity|].
  cbn [app skip_ws]. rewrite Hc. exact IH.
Qed.

Lemma decode_leading_blank ws s : blank ws -> decode (ws ++ s) = decode s.
Proof.
  intros Hws. unfold decode. rewrite (skip_ws_app_blank ws s Hws).
  rewrite (scan_once_stable (S (length (ws ++ s))) (S (length s)) (skip_ws s));
    [reflexivity| |].
  all: pose proof (skip_ws_length s); rewrite ?length_app; lia.
Qed.

Lemma decode_bom t : decode (0xfeff :: t) = None.
Proof. reflexivity. Qed.

(** X10. White space in front of a document is skipped: a body and the
    same body after spaces, tabs and line ends are accepted or rejected
    together, with the same value. *)
Theorem leading_whitespace_is_ignored ws s :
  blank ws -> json_loads (ws ++ s) = json_loads s.
Proof.
  intros Hws. destruct Hws as [|c ws Hc Hws]; [reflexivity|].
  unfold json_loads. change ((c :: ws) ++ s) with (c :: (ws ++ s)).
  rewrite (startswith_bom_ws c (ws ++ s) Hc).
  change (c :: (ws ++ s)) with ((c :: ws) ++ s).
  rewrite (decode_leading_blank (c :: ws) s) by (constructor; assumption).
  destruct s as [|c0 t]; [reflexivity|]. cbn [startswith].
  destruct (Z.eqb_spec 0xfeff c0) as [<-|]; [apply decode_bom|reflexivity].
Qed.

(** *** Repeated keys *)

Lemma dict_of_pairs_snoc pairs k (v : value) :
  dict_of_pairs (pairs ++ [(k, v)]) = dict_setitem k v (dict_of_pairs pairs).
Proof. unfold dict_of_pairs. rewrite fold_left_app. reflexivity. Qed.

Lemma dict_of_pairs_keys pairs : NoDup (map fst (dict_of_pairs pairs)).
Proof.
  apply (dict_of_pairs_wf (fun _ => True) pairs).
  apply Forall_forall. intros; exact I.
Qed.

Lemma dict_setitem_keys k (v : value) d :
  k ∈ map fst d -> map fst (dict_setitem k v d) = map fst d.
Proof.
  induction d as [|[k' v'] d IH]; intros Hk; [inversion Hk|].
  cbn [dict_setitem]. destruct (bool_decide (k = k')) eqn:E; [reflexivity|].
  apply bool_decide_eq_false in E. cbn [map fst] in *.
  apply elem_of_cons in Hk as [Hk|Hk]; [contradiction|].
  rewrite (IH Hk). reflexivity.
Qed.

Lemma dict_setitem_elem k (v : value) d k' v' :
  NoDup (map fst d) ->
  (k', v') ∈ dict_setitem k v d <->
  (k' = k /\ v' = v) \/ (k' <> k /\ (k', v') ∈ d).
Proof.
  induction d as [|[k0 v0] d IH]; intros Hn; cbn [dict_setitem].
  - rewrite list_elem_of_singleton. split.
    + intros [= -> ->]. left; split; reflexivity.
    + intros [[-> ->]|[_ H]]; [reflexivity|inversion H].
  - cbn [map fst] in Hn. apply NoDup_cons in Hn as [Hk0 Hn].
    destruct (bool_decide (k = k0)) eqn:E.
    + apply bool_decide_eq_true in E. subst k0. rewrite !elem_of_cons. split.
      * intros [[= -> ->]|H]; [left; split; reflexivity|].
        right. split; [|right; exact H].
        intros ->. apply Hk0. apply list_elem_of_In.
        apply (in_map fst d (k, v')). apply list_elem_of_In, H.
      * intros [[-> ->]|[Hne [[= -> ->]|H]]];
          [left; reflexivity|contradiction|right; exact H].
    + apply bool_decide_eq_false in E. rewrite !elem_of_cons, (IH Hn). split.
      * intros [[= -> ->]|[[-> ->]|[Hne H]]].
        -- right. split; [congruence|left; reflexivity].
        -- left; split; reflexivity.
        -- right. split; [exact Hne|right; exact H].
      * intros [[-> ->]|[Hne [[= -> ->]|H]]].
        -- right; left; split; reflexivity.
        -- left; reflexivity.
        -- right; right; split; assumption.
Qed.

(** X11. When the pairs of an object repeat a key, the dictionary that
    [json.loads] builds holds it once, with the value of its last
    occurrence and at the place of its first; the entries of the other
    keys are not changed, and no key occurs twice. *)
Theorem repeated_key_keeps_last_value pairs k (v : value) :
  NoDup (map fst (dict_of_pairs (pairs ++ [(k, v)])))
  /\ (forall v', (k, v') ∈ dict_of_pairs (pairs ++ [(k, v)]) <-> v' = v)
  /\ (forall k' v', k' <> k ->
        (k', v') ∈ dict_of_pairs (pairs ++ [(k, v)])
        <-> (k', v') ∈ dict_of_pairs pairs)
  /\ (k ∈ map fst pairs ->
      map fst (dict_of_pairs (pairs ++ [(k, v)])) = map fst (dict_of_pairs pairs)).
Proof.
  split; [apply dict_of_pairs_keys|].
  rewrite dict_of_pairs_snoc. pose proof (dict_of_pairs_keys pairs) as Hn.
  split; [|split].
  - intros v'. rewrite (dict_setitem_elem k v _ k v' Hn). split.
    + intros [[_ ->]|[Hne _]]; [reflexivity|contradiction].
    + intros ->. left; split; reflexivity.
  - intros k' v' Hne. rewrite (dict_setitem_elem k v _ k' v' Hn). split.
    + intros [[-> _]|[_ H]]; [contradiction|exact H].
    + intros H. right; split; assumption.
  - intros Hk. apply dict_setitem_keys.
    clear Hn. revert Hk. unfold dict_of_pairs.
    assert (Hacc : forall acc : list (pystr * value),
              k ∈ map fst pairs \/ k ∈ map fst acc ->
              k ∈ map fst (fold_left (fun d kv => dict_setitem (fst kv) (snd kv) d)
                             pairs acc)).
    { induction pairs as [|[k1 v1] pairs IH]; intros acc [H|H]; cbn [fold_left fst snd].
      - inversion H.
      - exact H.
      - cbn [map fst] in H. apply elem_of_cons in H as [->|H].
        + apply IH. right. clear IH.
          induction acc as [|[k2 v2] acc IHa]; cbn [dict_setitem].
          * apply list_elem_of_here.
          * destruct (bool_decide (k1 = k2)) eqn:E.
            -- apply bool_decide_eq_true in E. subst k2. apply list_elem_of_here.
            -- cbn [map fst]. apply list_elem_of_further, IHa.
        + apply IH. left. exact H.
      - apply IH. right. clear IH.
        induction acc as [|[k2 v2] acc IHa]; [inversion H|].
        cbn [dict_setitem]. cbn [map fst] in H.
        destruct (bool_decide (k1 = k2)) eqn:E.
        + exact H.
        + cbn [map fst]. apply elem_of_cons in H as [->|H];
            [apply list_elem_of_here|apply list_elem_of_further, IHa, H]. }
    intros Hk. apply Hacc. left. exact Hk.
Qed.

(** X12. Whatever the text, a document that [json.loads] returns has
    distinct keys in each of its objects and floats read from literals or
    constants; read from text without surrogate code points, none of its
    strings or keys has one either. *)
Theorem parsed_document_is_well_formed s v :
  json_loads s = Some v ->
  well_formed (fun _ => True) v
  /\ (Forall scalar s -> well_formed wf_str v).
Proof.
  intros H. split; [exact (json_loads_decoded s v H)|].
  intros Hs. exact (json_loads_well_formed s v Hs H).
Qed.

Context {L : PyFloatLaws F}.

(** X13. With any indentation, [json.dumps] writes ASCII text that
    [json.loads] reads back as the value written. *)
Theorem loads_inverts_dumps v indent :
  well_formed wf_str v ->
  json_loads (json_dumps v indent) = Some v
  /\ Forall is_ascii (json_dumps v indent)
  /\ utf8_encode (json_dumps v indent) = Some (json_dumps v indent).
Proof.
  intros Hv. split; [apply json_loads_dumps, Hv|].
  pose proof (json_dumps_ascii wf_str v indent Hv) as Ha.
  split; [exact Ha|]. apply utf8_encode_ascii, Ha.
Qed.

End Documents.

(** ** The [utf-8] codec on Unicode text *)

(** A lead or continuation byte: the marker bits above, the payload below. *)
Lemma lor_marker p k x :
  0 <= k -> 0 <= x < 2 ^ k -> Z.lor (p * 2 ^ k) x = p * 2 ^ k + x.
Proof.
  intros Hk Hx. rewrite <- (Z.shiftl_mul_pow2 p k) by lia.
  rewrite lor_shiftl_add by assumption. rewrite Z.shiftl_mul_pow2 by lia. reflexivity.
Qed.

Lemma land_payload p k x :
  0 <= k -> 0 <= x < 2 ^ k -> Z.land (p * 2 ^ k + x) (Z.ones k) = x.
Proof.
  intros Hk Hx. rewrite Z.land_ones by lia.
  rewrite Z.add_comm, Z.mod_add by lia. apply Z.mod_small, Hx.
Qed.

Lemma continuation_byte c :
  0 <= c -> Z.lor 0x80 (Z.land c 0x3f) = 128 + c mod 64.
Proof.
  intros Hc. change 0x3f with (Z.ones 6). rewrite Z.land_ones by lia.
  change 0x80 with (2 * 2 ^ 6). change 64 with (2 ^ 6) at 1.
  rewrite lor_marker; [reflexivity|lia|apply Z.mod_pos_bound; lia].
Qed.

Lemma lead_byte p k c n :
  0 <= k -> 0 <= n -> 0 <= c < 2 ^ (n + k) ->
  Z.lor (p * 2 ^ k) (Z.shiftr c n) = p * 2 ^ k + c / 2 ^ n.
Proof.
  intros Hk Hn Hc. rewrite Z.shiftr_div_pow2 by lia.
  apply lor_marker; [exact Hk|]. split; [apply Z.div_pos; lia|].
  apply Z.div_lt_upper_bound; [lia|]. rewrite <- Z.pow_add_r by lia. lia.
Qed.

Lemma payload_of_continuation y :
  0 <= y < 64 -> Z.land (128 + y) 0x3f = y.
Proof.
  intros Hy. change 0x3f with (Z.ones 6). change 128 with (2 * 2 ^ 6).
  apply land_payload; [lia|exact Hy].
Qed.

Lemma payload_join x y k :
  0 <= k -> 0 <= y < 2 ^ k -> Z.lor (Z.shiftl x k) y = x * 2 ^ k + y.
Proof. intros. apply lor_shiftl_add; assumption. Qed.

(** The digits of [c] in base 64. *)
Lemma base64_digits c :
  0 <= c ->
  exists w x y z,
    c = 262144 * w + 4096 * x + 64 * y + z
    /\ 0 <= w /\ 0 <= x < 64 /\ 0 <= y < 64 /\ 0 <= z < 64
    /\ c mod 64 = z /\ (c / 64) mod 64 = y /\ (c / 4096) mod 64 = x
    /\ c / 64 = 4096 * w + 64 * x + y /\ c / 4096 = 64 * w + x
    /\ c / 262144 = w.
Proof.
  intros Hc.
  exists (c / 262144), ((c / 4096) mod 64), ((c / 64) mod 64), (c mod 64).
  assert (H4096 : c / 4096 = c / 64 / 64) by (rewrite Z.div_div by lia; reflexivity).
  assert (H262144 : c / 262144 = c / 4096 / 64) by (rewrite Z.div_div by lia; reflexivity).
  pose proof (Z.div_mod c 64 ltac:(lia)) as H1.
  pose proof (Z.mod_pos_bound c 64 ltac:(lia)) as B1.
  pose proof (Z.div_mod (c / 64) 64 ltac:(lia)) as H2.
  pose proof (Z.mod_pos_bound (c / 64) 64 ltac:(lia)) as B2.
  pose proof (Z.div_mod (c / 4096) 64 ltac:(lia)) as H3.
  pose proof (Z.mod_pos_bound (c / 4096) 64 ltac:(lia)) as B3.
  assert (0 <= c / 262144) by (apply Z.div_pos; lia).
  rewrite <- H4096 in H2. rewrite <- H262144 in H3.
  repeat split; try lia; reflexivity.
Qed.

Lemma utf8_decode_encode_char c bs rest :
  scalar c -> utf8_encode_char c = Some bs ->
  utf8_decode (bs ++ rest) = push_code c (utf8_decode rest).
Proof.
  intros [[Hlo Hhi] Hsur]. unfold utf8_encode_char.
  destruct (base64_digits c Hlo)
    as (w & x & y & z & Hc & Hw & Hx & Hy & Hz & Ez & Ey & Ex & E64 & E4096 & Ew).
  rewrite !continuation_byte
    by first [exact Hlo | rewrite Z.shiftr_div_pow2 by lia; apply Z.div_pos; lia].
  rewrite !Z.shiftr_div_pow2 by lia.
  change (2 ^ 6) with 64. change (2 ^ 12) with 4096. change (2 ^ 18) with 262144.
  rewrite ?Ez, ?Ey, ?Ex.
  destruct (Z.ltb_spec c 0x80) as [H1|H1].
  { intros [= <-]. cbn [app utf8_decode]. zdec. reflexivity. }
  destruct (Z.ltb_spec c 0x800) as [H2|H2].
  { intros [= <-].
    change 0xc0 with (3 * 2 ^ 6).
    rewrite lor_marker by (rewrite ?E64; lia). change (3 * 2 ^ 6) with 192.
    rewrite E64. assert (w = 0) as -> by lia. assert (x = 0) as -> by lia.
    cbn [app utf8_decode]. unfold is_continuation. zdec.
    change 0x1f with (Z.ones 5). change 192 with (6 * 2 ^ 5).
    replace (6 * 2 ^ 5 + (4096 * 0 + 64 * 0 + y)) with (6 * 2 ^ 5 + y) by lia.
    rewrite land_payload by lia.
    rewrite payload_of_continuation by lia.
    rewrite payload_join by lia.
    replace (y * 2 ^ 6 + z) with c by lia. reflexivity. }
  destruct (Z.ltb_spec c 0x10000) as [H3|H3].
  { rewrite Hsur. intros [= <-].
    change 0xe0 with (14 * 2 ^ 4).
    rewrite lor_marker by (rewrite ?E4096; lia). change (14 * 2 ^ 4) with 224.
    rewrite E4096. assert (w = 0) as -> by lia.
    replace (224 + (64 * 0 + x)) with (224 + x) by lia.
    cbn [app utf8_decode]. unfold is_continuation. zdec.
    change 0x0f with (Z.ones 4). change 224 with (14 * 2 ^ 4).
    rewrite land_payload by lia.
    rewrite !payload_of_continuation by lia.
    rewrite (payload_join y z 6) by lia.
    rewrite (payload_join x _ 12) by lia.
    replace (x * 2 ^ 12 + (y * 2 ^ 6 + z)) with c by lia.
    rewrite Hsur. zdec. reflexivity. }
  intros [= <-].
  change 0xf0 with (30 * 2 ^ 3).
  rewrite lor_marker by (rewrite ?Ew; lia). change (30 * 2 ^ 3) with 240.
  rewrite Ew.
  cbn [app utf8_decode]. unfold is_continuation. zdec.
  change 0x07 with (Z.ones 3). change 240 with (30 * 2 ^ 3).
  rewrite land_payload by lia.
  rewrite !payload_of_continuation by lia.
  rewrite (payload_join y z 6) by lia.
  rewrite (payload_join x _ 12) by lia.
  rewrite (payload_join w _ 18) by lia.
  replace (w * 2 ^ 18 + (x * 2 ^ 12 + (y * 2 ^ 6 + z))) with c by lia.
  zdec. reflexivity.
Qed.

Lemma utf8_encode_char_scalar c : scalar c -> exists bs, utf8_encode_char c = Some bs.
Proof.
  intros [_ Hsur]. unfold utf8_encode_char. rewrite Hsur.
  repeat destruct (_ <? _); eexists; reflexivity.
Qed.

Lemma utf8_encode_char_surrogate c :
  is_surrogate c = true -> utf8_encode_char c = None.
Proof.
  intros Hsur. unfold utf8_encode_char. rewrite Hsur.
  unfold is_surrogate in Hsur. apply andb_prop in Hsur as [H1 H2].
  apply Z.leb_le in H1. apply Z.leb_le in H2. zdec. reflexivity.
Qed.

(** Unicode text is encoded, and decoding the bytes gives it back. *)
Lemma utf8_decode_encode t :
  Forall scalar t ->
  exists bytes, utf8_encode t = Some bytes /\ utf8_decode bytes = Some t.
Proof.
  induction 1 as [|c t Hc _ (bytes & He & Hd)]; [exists []; split; reflexivity|].
  destruct (utf8_encode_char_scalar c Hc) as [bs Hbs].
  exists (bs ++ bytes). cbn [utf8_encode]. rewrite Hbs, He. split; [reflexivity|].
  rewrite (utf8_decode_encode_char c bs bytes Hc Hbs), Hd. reflexivity.
Qed.

(** Text with a surrogate is not encoded. *)
Lemma utf8_encode_surrogate t c :
  c ∈ t -> is_surrogate c = true -> utf8_encode t = None.
Proof.
  intros Hin Hsur. induction t as [|d t IH]; [inversion Hin|].
  cbn [utf8_encode]. apply elem_of_cons in Hin as [<-|Hin].
  - rewrite (utf8_encode_char_surrogate c Hsur). reflexivity.
  - rewrite (IH Hin). destruct (utf8_encode_char d); reflexivity.
Qed.

(** ** Writing and reading a file *)

(** X14. Writing Unicode text to a path whose parent exists and which is
    not a directory succeeds and changes no other file and no directory;
    reading the path afterwards gives the text back.  The text has no
    carriage return: reading a file translates those. *)
Theorem write_then_read path data w :
  parent_exists path w = true -> path ∉ directories w ->
  Forall scalar data -> 13 ∉ data ->
  fst (write_text path data w) = Returned tt
  /\ read_text path (snd (write_text path data w)) = Some data
  /\ directories (snd (write_text path data w)) = directories w
  /\ (forall other, other <> path ->
        files (snd (write_text path data w)) !! other = files w !! other).
Proof.
  intros Hp Hd Hs _. destruct (utf8_decode_encode data Hs) as (bytes & He & Hdec).
  unfold write_text, read_text. rewrite Hp, He. cbn [negb].
  rewrite bool_decide_eq_false_2 by exact Hd.
  cbn [fst snd files directories log store].
  rewrite lookup_insert_eq. repeat split; [exact Hdec|].
  intros other Hne. apply lookup_insert_ne. congruence.
Qed.

(** X15. Writing text that holds a surrogate code point raises
    [UnicodeEncodeError] after the file was opened for writing: the file
    is left empty and no write is performed. *)
Theorem write_of_surrogate_truncates path data w c :
  parent_exists path w = true -> path ∉ directories w ->
  c ∈ data -> is_surrogate c = true ->
  fst (write_text path data w) = Raised UnicodeEncodeError
  /\ files (snd (write_text path data w)) !! path = Some []
  /\ trace (snd (write_text path data w)) = trace w ++ [Open path].
Proof.
  intros Hp Hd Hin Hsur. unfold write_text.
  rewrite Hp, (utf8_encode_surrogate data c Hin Hsur). cbn [negb].
  rewrite bool_decide_eq_false_2 by exact Hd.
  cbn [fst snd files trace log store]. split; [reflexivity|].
  split; [apply lookup_insert_eq|reflexivity].
Qed.

(** ** Control characters in strings *)

Section Strict.
Context {F : PyFloat}.

Lemma py_scanstring_control pre c t :
  Forall (fun d => 32 <= d /\ d <> 34 /\ d <> 92) pre -> c < 32 ->
  py_scanstring (pre ++ c :: t) = None.
Proof.
  intros Hpre Hc. induction Hpre as [|d pre (Hd & Hq & Hb) _ IH]; cbn [app py_scanstring].
  - zdec. reflexivity.
  - zdec. rewrite IH. reflexivity.
Qed.

(** X16. A string with a raw character below U+0020 in it (a line end or
    a tab, say) is not read: a body that starts with such a string is
    rejected. *)
Theorem raw_control_character_is_rejected pre c t :
  Forall (fun d => 32 <= d /\ d <> 34 /\ d <> 92) pre -> c < 32 ->
  py_scanstring (pre ++ c :: t) = None
  /\ json_loads (34 :: pre ++ c :: t) = None.
Proof.
  intros Hpre Hc. pose proof (py_scanstring_control pre c t Hpre Hc) as Hs.
  split; [exact Hs|].
  unfold json_loads, decode. cbn [startswith skip_ws].
  change (is_ws 34) with false. cbn [scan_once]. zdec.
  rewrite Hs. reflexivity.
Qed.

End Strict.

(** ** The further properties on sample worlds *)

Lemma second_get_follows_first_write_witness :
  (exists bytes, Write (path_of countries_lakes) bytes
                 ∈ performed (F := LiteralFloat) not_found_world)
  /\ ~ Get (url_of states_provinces) ∈ performed (F := LiteralFloat) blank_world.
Proof.
  split.
  - apply (second_get_follows_first_write (F := LiteralFloat) not_found_world).
    apply list_elem_of_In. vm_compute. right; right; right; left. reflexivity.
  - intros Hg.
    apply (second_get_follows_first_write (F := LiteralFloat) blank_world) in Hg
      as [bytes Hw].
    apply list_elem_of_In in Hw. vm_compute in Hw.
    destruct Hw as [Hw|[]]. discriminate Hw.
Defined.

Lemma run_touches_only_outputs_witness :
  files (snd (download_data (F := LiteralFloat) cluttered_world))
    !! "data/notes.txt"%string = Some (lit "keep")
  /\ directories (snd (download_data (F := LiteralFloat) cluttered_world))
     = {["data"%string]}.
Proof.
  destruct (run_touches_only_outputs (F := LiteralFloat) cluttered_world
              "data/notes.txt"%string) as (Hf & _ & _ & Hd).
  - intros H. apply String.eqb_eq in H. vm_compute in H. discriminate H.
  - intros H. apply String.eqb_eq in H. vm_compute in H. discriminate H.
  - split; [rewrite Hf; vm_compute; reflexivity|exact Hd].
Defined.

Lemma status_code_is_never_read_witness :
  fst (download_data (F := LiteralFloat) sample_world)
  = fst (download_data (F := LiteralFloat) restatused_world)
  /\ performed (F := LiteralFloat) sample_world
     = performed (F := LiteralFloat) restatused_world
  /\ files (snd (download_data (F := LiteralFloat) sample_world))
     = files (snd (download_data (F := LiteralFloat) restatused_world)).
Proof.
  apply (status_code_is_never_read (F := LiteralFloat) sample_world restatused_world).
  - intros url. cbn [remote sample_world restatused_world world]. unfold host.
    destruct (bool_decide _); [reflexivity|].
    destruct (bool_decide _); reflexivity.
  - reflexivity.
  - reflexivity.
  - reflexivity.
Defined.


Lemma first_file_survives_second_failure_witness :
  exists r obj bytes,
    remote not_found_world (url_of countries_lakes) = Returned r
    /\ json_loads (F := LiteralFloat) (text r) = Some obj
    /\ utf8_encode (json_dumps obj 2) = Some bytes
    /\ files (snd (download_data (F := LiteralFloat) not_found_world))
         !! path_of countries_lakes = Some bytes.
Proof.
  apply (first_file_survives_second_failure (F := LiteralFloat) not_found_world
           JSONDecodeError).
  - vm_compute. reflexivity.
  - apply list_elem_of_In. vm_compute. right; right; right; left. reflexivity.
Defined.

Lemma output_path_directory_is_fatal_witness :
  (exists e, fst (download_data (F := LiteralFloat) directory_world) = Raised e)
  /\ files (snd (download_data (F := LiteralFloat) directory_world))
       !! path_of states_provinces = None.
Proof.
  destruct (output_path_directory_is_fatal (F := LiteralFloat) directory_world
              states_provinces) as (He & _ & Hf & _).
  - apply list_elem_of_further, list_elem_of_here.
  - vm_compute. reflexivity.
  - split; [exact He|]. rewrite Hf. vm_compute. reflexivity.
Defined.

Lemma blank_body_is_fatal_witness :
  fst (download_data (F := LiteralFloat) blank_world) = Raised JSONDecodeError
  /\ performed (F := LiteralFloat) blank_world = [Get (url_of countries_lakes)].
Proof.
  destruct (blank_body_is_fatal (F := LiteralFloat) blank_world
              {| status_code := 200; text := [32; 10; 13; 9] |}) as (_ & He & Hp & _).
  - vm_compute. reflexivity.
  - repeat constructor.
  - split; assumption.
Defined.

Lemma run_succeeds_iff_witness :
  fst (download_data (F := LiteralFloat) sample_world) = Returned tt
  /\ fst (download_data (F := LiteralFloat) bare_world) <> Returned tt.
Proof.
  split.
  - apply (run_succeeds_iff (F := LiteralFloat) sample_world).
    split; [vm_compute; reflexivity|].
    intros filename Hin. destruct (filenames_cases _ Hin) as [-> | ->].
    + split; [intros H; vm_compute in H; discriminate H|].
      destruct (json_loads (F := LiteralFloat) sample_countries) as [obj|] eqn:Hobj;
        [|vm_compute in Hobj; discriminate Hobj].
      exists {| status_code := 200; text := sample_countries |}, obj.
      split; [vm_compute; reflexivity|exact Hobj].
    + split; [intros H; vm_compute in H; discriminate H|].
      destruct (json_loads (F := LiteralFloat) sample_states) as [obj|] eqn:Hobj;
        [|vm_compute in Hobj; discriminate Hobj].
      exists {| status_code := 200; text := sample_states |}, obj.
      split; [vm_compute; reflexivity|exact Hobj].
  - intros Hok.
    apply (run_succeeds_iff (F := LiteralFloat) bare_world) in Hok as [Hdata _].
    vm_compute in Hdata. discriminate Hdata.
Defined.


Lemma leading_whitespace_is_ignored_witness :
  json_loads (F := LiteralFloat) ([32; 10; 9] ++ sample_states)
  = json_loads (F := LiteralFloat) sample_states.
Proof.
  apply (leading_whitespace_is_ignored (F := LiteralFloat) [32; 10; 9] sample_states).
  repeat constructor.
Defined.

Lemma repeated_key_keeps_last_value_witness :
  (lit "a", VInt 2)
    ∈ dict_of_pairs (F := LiteralFloat)
        ([(lit "a", VInt 1); (lit "b", VNone)] ++ [(lit "a", VInt 2)])
  /\ map fst (dict_of_pairs (F := LiteralFloat)
                ([(lit "a", VInt 1); (lit "b", VNone)] ++ [(lit "a", VInt 2)]))
     = [lit "a"; lit "b"].
Proof.
  destruct (repeated_key_keeps_last_value (F := LiteralFloat)
              [(lit "a", VInt 1); (lit "b", VNone)] (lit "a") (VInt 2))
    as (_ & Hlast & _ & Horder).
  split.
  - apply Hlast. reflexivity.
  - rewrite Horder; [reflexivity|]. apply list_elem_of_here.
Defined.

Lemma parsed_document_is_well_formed_witness :
  exists v, json_loads (F := LiteralFloat) sample_countries = Some v
            /\ well_formed wf_str v.
Proof.
  destruct (json_loads (F := LiteralFloat) sample_countries) as [obj|] eqn:Hobj;
    [|vm_compute in Hobj; discriminate Hobj].
  exists obj. split; [reflexivity|].
  apply (parsed_document_is_well_formed (F := LiteralFloat) sample_countries obj Hobj).
  compute_text. scalar_text.
Defined.

Lemma loads_inverts_dumps_witness :
  json_loads (json_dumps sample_value 4) = Some sample_value
  /\ Forall is_ascii (json_dumps sample_value 4)
  /\ utf8_encode (json_dumps sample_value 4) = Some (json_dumps sample_value 4).
Proof.
  apply (loads_inverts_dumps (F := LiteralFloat) sample_value 4).
  unfold sample_value.
  repeat first
    [ apply wf_none | apply wf_bool | apply wf_int
    | apply wf_float, decoded_literal; vm_compute; reflexivity
    | apply wf_list | apply wf_dict | apply wf_string
    | apply List.Forall_nil | apply List.Forall_cons | split ].
  all: cbn [fst snd map].
  all: try (vm_compute; discriminate).
  all: try (vm_compute; reflexivity).
  all: repeat (apply NoDup_cons_2;
               [intros H; apply list_elem_of_In in H; vm_compute in H;
                intuition discriminate|]).
  all: apply NoDup_nil_2.
Defined.

Lemma write_then_read_witness :
  fst (write_text "data/names.json" [99; 233; 0x20ac; 0x1f600] sample_world)
  = Returned tt
  /\ read_text "data/names.json"
       (snd (write_text "data/names.json" [99; 233; 0x20ac; 0x1f600] sample_world))
     = Some [99; 233; 0x20ac; 0x1f600].
Proof.
  destruct (write_then_read "data/names.json" [99; 233; 0x20ac; 0x1f600] sample_world)
    as (Hres & Hread & _).
  - vm_compute. reflexivity.
  - intros H. vm_compute in H. discriminate H.
  - scalar_text.
  - intros H. apply list_elem_of_In in H. vm_compute in H. intuition discriminate.
  - split; assumption.
Defined.

Lemma write_of_surrogate_truncates_witness :
  fst (write_text "data/names.json" [97; 0xd800] sample_world)
  = Raised UnicodeEncodeError
  /\ files (snd (write_text "data/names.json" [97; 0xd800] sample_world))
       !! "data/names.json"%string = Some [].
Proof.
  destruct (write_of_surrogate_truncates "data/names.json" [97; 0xd800] sample_world 0xd800)
    as (Hres & Hfile & _).
  - vm_compute. reflexivity.
  - intros H. vm_compute in H. discriminate H.
  - apply list_elem_of_further, list_elem_of_here.
  - reflexivity.
  - split; assumption.
Defined.

Lemma raw_control_character_is_rejected_witness :
  json_loads (F := LiteralFloat) (34 :: lit "ab" ++ 10 :: [99; 34]) = None.
Proof.
  apply (raw_control_character_is_rejected (F := LiteralFloat) (lit "ab") 10 [99; 34]).
  - repeat (apply List.Forall_cons; [vm_compute; repeat split; discriminate|]).
    apply List.Forall_nil.
  - lia.
Defined.
